(** * SmartAppContext (src/lib/util/smart-app-context.js)

    A shallow embedding of the context class of the SmartApp SDK: the
    lifecycle normaliser (the constructor), token retrieval, [setLocationId]
    and the config accessors, with the device enrichment calls.

    JavaScript values are modelled by [jsval]; a thrown exception by the
    [Throw] branch of [result]; an asynchronous outcome by [promise]. *)

From Stdlib Require Import String List ZArith Bool DecimalString.
Import ListNotations.
Set Warnings "-register-all".
Open Scope string_scope.

(** ** JavaScript values *)

(** The values the code manipulates. Numbers only occur as integers in
    the payloads; a [JFun] is a function value, named after the property
    that produced it. *)
Inductive jsval : Type :=
| JUndef
| JNull
| JBool (b : bool)
| JNum (n : Z)
| JStr (s : string)
| JArr (xs : list jsval)
| JObj (props : list (string * jsval))
| JFun (name : string).

(** The errors the modelled code can raise or reject with. *)
Inductive js_error : Type :=
| TypeError
| RangeError
| Rejection (reason : jsval).

(** A synchronous computation that may throw. *)
Inductive result (A : Type) : Type :=
| Ok (a : A)
| Throw (e : js_error).
Arguments Ok {A} a.
Arguments Throw {A} e.

Definition result_bind {A B} (m : result A) (k : A -> result B) : result B :=
  match m with
  | Ok a => k a
  | Throw e => Throw e
  end.

Notation "'let*' x ':=' m 'in' k" := (result_bind m (fun x => k))
  (at level 200, x name, m at level 100, k at level 200).

(** JavaScript truthiness ([!v] is [negb (js_truthy v)]). *)
Definition js_truthy (v : jsval) : bool :=
  match v with
  | JUndef | JNull => false
  | JBool b => b
  | JNum n => negb (Z.eqb n 0)
  | JStr s => negb (String.eqb s "")
  | JArr _ | JObj _ | JFun _ => true
  end.

(** [a && b] and [a || b], with [b] evaluated only when needed. *)
Definition js_and (a : jsval) (b : unit -> result jsval) : result jsval :=
  if js_truthy a then b tt else Ok a.

Definition js_or (a : jsval) (b : unit -> result jsval) : result jsval :=
  if js_truthy a then Ok a else b tt.

(** Strict equality [===] (no function values are compared on the
    modelled paths: two functions are equal when their names are). *)
Definition js_strict_eq (a b : jsval) : bool :=
  match a, b with
  | JUndef, JUndef | JNull, JNull => true
  | JBool x, JBool y => Bool.eqb x y
  | JNum x, JNum y => Z.eqb x y
  | JStr x, JStr y => String.eqb x y
  | JFun x, JFun y => String.eqb x y
  | _, _ => false
  end.

(** The names every object inherits from [Object.prototype]. *)
Definition object_prototype_names : list string :=
  ["constructor"; "hasOwnProperty"; "isPrototypeOf"; "propertyIsEnumerable";
   "toLocaleString"; "toString"; "valueOf"; "__defineGetter__";
   "__defineSetter__"; "__lookupGetter__"; "__lookupSetter__"; "__proto__"].

Fixpoint own_lookup (k : string) (ps : list (string * jsval)) : option jsval :=
  match ps with
  | [] => None
  | (k', v) :: ps' => if String.eqb k k' then Some v else own_lookup k ps'
  end.

(** What a property read finds on the prototype chain: [Object.prototype]'s
    members ([__proto__] yields [Object.prototype] itself, an object without
    own enumerable properties), else [undefined]. *)
Definition inherited (k : string) : jsval :=
  if String.eqb k "__proto__" then JObj []
  else if existsb (String.eqb k) object_prototype_names then JFun k
  else JUndef.

(** [v[0]] on an array: its first element. *)
Definition js_index0 (v : jsval) : result jsval :=
  match v with
  | JUndef | JNull => Throw TypeError
  | JArr (x :: _) => Ok x
  | JArr [] => Ok JUndef
  | JObj ps =>
      match own_lookup "0" ps with Some x => Ok x | None => Ok (inherited "0") end
  | JStr (String c _) => Ok (JStr (String c EmptyString))
  | _ => Ok JUndef
  end.

(** A property read [v.k] / [v[k]]: a TypeError on [undefined] and [null].
    Arrays are read by the names of [Object.prototype] only: no modelled
    path reads an array by any other name. *)
Definition js_get (v : jsval) (k : string) : result jsval :=
  match v with
  | JUndef | JNull => Throw TypeError
  | JObj ps =>
      match own_lookup k ps with Some x => Ok x | None => Ok (inherited k) end
  | _ => Ok (inherited k)
  end.

(** A property write [v.k = x] in strict mode: replaces an own property in
    place or appends a new one; a TypeError on primitives. *)
Fixpoint set_prop (k : string) (x : jsval) (ps : list (string * jsval))
  : list (string * jsval) :=
  match ps with
  | [] => [(k, x)]
  | (k', v) :: ps' =>
      if String.eqb k k' then (k', x) :: ps' else (k', v) :: set_prop k x ps'
  end.

Definition js_set (v : jsval) (k : string) (x : jsval) : result jsval :=
  match v with
  | JObj ps => Ok (JObj (set_prop k x ps))
  | _ => Throw TypeError
  end.

(** [ToPropertyKey v]: the string a computed member access [o[v]] reads. *)
Fixpoint to_key (v : jsval) : string :=
  match v with
  | JUndef => "undefined"
  | JNull => "null"
  | JBool b => if b then "true" else "false"
  | JNum n => NilZero.string_of_int (Z.to_int n)
  | JStr s => s
  | JArr xs =>
      (* Array.prototype.toString: join(","), with undefined and null as "" *)
      String.concat ","
        (map (fun x => match x with JUndef | JNull => "" | _ => to_key x end) xs)
  | JObj _ => "[object Object]"
  | JFun name => name
  end.

(** ** Promises *)

(** The settled outcome of a promise. *)
Inductive promise (A : Type) : Type :=
| Fulfilled (a : A)
| Rejected (reason : js_error).
Arguments Fulfilled {A} a.
Arguments Rejected {A} reason.

(** [p.then(f)]: a callback that throws rejects the derived promise; a
    callback returning a promise is flattened. *)
Definition promise_then {A B} (p : promise A) (f : A -> result (promise B))
  : promise B :=
  match p with
  | Fulfilled a => match f a with Ok q => q | Throw e => Rejected e end
  | Rejected e => Rejected e
  end.

(** [Promise.all(ps)]: fulfilled with every value, in the order of [ps],
    when all are fulfilled; rejected otherwise. (The host rejects with the
    reason of the first promise to reject in time; the model takes the
    first rejected one in list order, and no theorem depends on which.) *)
Fixpoint promise_all {A} (ps : list (promise A)) : promise (list A) :=
  match ps with
  | [] => Fulfilled []
  | Rejected e :: _ => Rejected e
  | Fulfilled a :: ps' =>
      match promise_all ps' with
      | Fulfilled l => Fulfilled (a :: l)
      | Rejected e => Rejected e
      end
  end.

(** [Array.prototype.forEach] / [map] with a callback that may throw: the
    first throw aborts the iteration. *)
Fixpoint result_map {A B} (f : A -> result B) (xs : list A) : result (list B) :=
  match xs with
  | [] => Ok []
  | x :: xs' =>
      let* y := f x in
      let* ys := result_map f xs' in
      Ok (y :: ys)
  end.

(** ** Host objects *)

(** [Number(v)]: the host's numeric coercion, kept symbolic. *)
Inductive js_number : Type :=
| Number_of (arg : jsval).

(** [new Date(v)]: a Date object, always truthy. *)
Inductive js_date : Type :=
| Date_of (arg : jsval).

(** The Date objects whose time value ECMA-262 fixes to NaN without the
    host's [Date.parse]: [new Date(undefined)] (ToNumber(undefined) is NaN). *)
Definition date_is_nan_by_ecma (d : js_date) : bool :=
  match d with
  | Date_of JUndef => true
  | _ => false
  end.

(** The strings [d.toLocaleTimeString(locale, options)] returns:
    ["Invalid Date"], or the host's formatting of [d] for [locale] and
    [options], kept symbolic. *)
Inductive time_string : Type :=
| Invalid_Date
| Locale_time (d : js_date) (locale : jsval) (options : list (string * jsval)).

(** The host's [Intl.DateTimeFormat] step of [toLocaleTimeString], run on a
    date whose time value is not NaN: it validates [locale] and [options]
    and may throw (a RangeError for a malformed language tag such as
    ['en_US'] or an option value out of range such as [{hour: 'long'}], a
    TypeError for a [null] locale); otherwise it formats the date (["Invalid
    Date"] for a string the host's [Date.parse] rejects). *)
Definition time_formatter : Type :=
  js_date -> jsval -> list (string * jsval) -> result time_string.

(** [d.toLocaleTimeString(locale, options)] (ECMA-402): ["Invalid Date"]
    when the time value is NaN, before the locale and options are looked
    at; otherwise the host's formatter. *)
Definition toLocaleTimeString (fmt : time_formatter) (d : js_date) (locale : jsval)
    (options : list (string * jsval)) : result time_string :=
  if date_is_nan_by_ecma d then Ok Invalid_Date else fmt d locale options.

(** A formatting-options object passed to [configTimeString]:
    its own enumerable properties, and whether [options.constructor === Object]. *)
Record options_obj : Type := mkOptions {
  opt_props : list (string * jsval);
  opt_plain : bool
}.

(** The default parameter [options = {}]. *)
Definition empty_options : options_obj := mkOptions [] true.

(** The context store collaborator ([app._contextStore]). *)
Record ContextStore : Type := mkContextStore {
  store_get : jsval -> promise jsval;
  store_delete : jsval -> promise unit
}.

(** The remote device endpoints ([api.devices.get] / [api.devices.getState]). *)
Record Remote : Type := mkRemote {
  devices_get : jsval -> promise jsval;
  devices_getState : jsval -> promise jsval
}.

(** The [async-mutex] handed to the API client: the one passed to the
    constructor, or a [new Mutex()]. *)
Inductive mutex : Type :=
| Mutex_shared (id : nat)
| Mutex_new.

(** The owning SmartApp's settings read by the context, with the i18n
    module it configures when it enables localization (the i18n package,
    not part of the sources): [app_i18n_locale r] is the locale
    [i18n.init(this)] writes into [this.locale] when it reads the header
    [accept-language: r], that is its best match for [r] among the
    configured locales, or its default locale ([undefined] when i18n was
    never configured). *)
Record App : Type := mkApp {
  app_localizationEnabled : jsval;
  app_clientId : jsval;
  app_clientSecret : jsval;
  app_log : jsval;
  app_apiUrl : jsval;
  app_refreshUrl : jsval;
  app_contextStore : option ContextStore;
  app_i18n_locale : jsval -> jsval
}.

(** The options object [new SmartThingsApi({...})] is built from. *)
Record ApiConfig : Type := mkApiConfig {
  ac_authToken : jsval;
  ac_refreshToken : jsval;
  ac_clientId : jsval;
  ac_clientSecret : jsval;
  ac_log : jsval;
  ac_apiUrl : jsval;
  ac_refreshUrl : jsval;
  ac_locationId : jsval;
  ac_installedAppId : jsval;
  ac_contextStore : option ContextStore;
  ac_apiMutex : option mutex
}.

(** [this.api]: either the placeholder [{}] ([api_instance = None]) or a
    SmartThingsApi client; [api_locationId] is its [locationId] property. *)
Record Api : Type := mkApi {
  api_instance : option ApiConfig;
  api_locationId : jsval
}.

Definition empty_api : Api := mkApi None JUndef.

(** Modelled from the spec: [SmartThingsApi] (src/lib/api, not part of the
    sources) is "constructed with {..., locationId, ...}" and carries that
    [locationId]; its device endpoints are the [Remote] collaborator. *)
Definition new_SmartThingsApi (cfg : ApiConfig) : Api :=
  mkApi (Some cfg) (ac_locationId cfg).

(** A [SmartAppContext] object. Fields the constructor leaves unset are
    [JUndef]; [ctx_i18n] records the call [i18n.init(this)]. *)
Record Ctx : Type := mkCtx {
  ctx_event : jsval;
  ctx_app : App;
  ctx_apiMutex : option mutex;
  ctx_api : Api;
  ctx_executionId : jsval;
  ctx_installedAppId : jsval;
  ctx_locationId : jsval;
  ctx_config : jsval;
  ctx_locale : jsval;
  ctx_headers : jsval;
  ctx_i18n : bool
}.

(** ** Config accessors *)

Section Accessors.

Variable this : Ctx.

(** [configStringValue(name)] *)
Definition configStringValue (name : string) : result jsval :=
  let* entry := js_get (ctx_config this) name in
  if negb (js_truthy entry) then Ok JUndef else
  let* e0 := js_index0 entry in
  let* sc := js_get e0 "stringConfig" in
  js_get sc "value".

(** [configBooleanValue(name)] *)
Definition configBooleanValue (name : string) : result bool :=
  let* entry := js_get (ctx_config this) name in
  if negb (js_truthy entry) then Ok false else
  let* e0 := js_index0 entry in
  let* sc := js_get e0 "stringConfig" in
  let* v := js_get sc "value" in
  Ok (js_strict_eq v (JStr "true")).

(** [configNumberValue(name)]; [None] is [undefined]. *)
Definition configNumberValue (name : string) : result (option js_number) :=
  let* entry := js_get (ctx_config this) name in
  if negb (js_truthy entry) then Ok None else
  let* e0 := js_index0 entry in
  let* sc := js_get e0 "stringConfig" in
  let* v := js_get sc "value" in
  Ok (Some (Number_of v)).

(** [configDateValue(name)]; [None] is [undefined]. *)
Definition configDateValue (name : string) : result (option js_date) :=
  let* entry := js_get (ctx_config this) name in
  if negb (js_truthy entry) then Ok None else
  let* e0 := js_index0 entry in
  let* sc := js_get e0 "stringConfig" in
  let* v := js_get sc "value" in
  Ok (Some (Date_of v)).

(** The host's date formatter used by [toLocaleTimeString]. *)
Variable fmt : time_formatter.

(** [configTimeString(name, options = {})]: the outcome, and the options
    object as the caller holds it afterwards (the default [{}] when the
    argument is omitted). A Date object is truthy, so [!entry] holds only
    when [configDateValue] returned [undefined]. *)
Definition configTimeString (name : string) (options_arg : option options_obj)
  : result (option time_string) * options_obj :=
  let options := match options_arg with Some o => o | None => empty_options end in
  match configDateValue name with
  | Throw e => (Throw e, options)
  | Ok None => (Ok None, options)
  | Ok (Some entry) =>
      let options :=
        if (Nat.eqb (length (opt_props options)) 0 && opt_plain options)%bool
        then mkOptions
               (set_prop "minute" (JStr "2-digit")
                  (set_prop "hour" (JStr "2-digit") (opt_props options)))
               (opt_plain options)
        else options in
      (let* t := toLocaleTimeString fmt entry (ctx_locale this) (opt_props options) in
       Ok (Some t),
       options)
  end.

(** [configModeIds(name)]: [entry.map(it => it.modeConfig.modeId)]; a
    TypeError when [entry] is not an array ([entry.map] is not a function). *)
Definition configModeIds (name : string) : result (option (list jsval)) :=
  let* entry := js_get (ctx_config this) name in
  if negb (js_truthy entry) then Ok None else
  match entry with
  | JArr items =>
      let* ids := result_map (fun it => let* mc := js_get it "modeConfig" in
                                        js_get mc "modeId") items in
      Ok (Some ids)
  | _ => Throw TypeError
  end.

(** [this.api.devices.get] / [getState]: a TypeError on the placeholder
    [{}], whose [devices] is [undefined]. *)
Definition api_devices (remote : Remote) : result Remote :=
  match api_instance (ctx_api this) with
  | Some _ => Ok remote
  | None => Throw TypeError
  end.

(** The first [.then] of both enrichment calls. *)
Definition device_record (componentId device : jsval) : result (promise jsval) :=
  let* deviceId := js_get device "deviceId" in
  let* nm := js_get device "name" in
  let* label := js_get device "label" in
  Ok (Fulfilled (JObj [("deviceId", deviceId); ("name", nm); ("label", label);
                       ("componentId", componentId)])).

(** The synchronous body of the [forEach] callback of [configDevices]: the
    promise it pushes onto [list]. *)
Definition device_lookup (remote : Remote) (item : jsval) : result (promise jsval) :=
  let* dc := js_get item "deviceConfig" in
  let* componentId := js_get dc "componentId" in
  let* api := api_devices remote in
  let* dc' := js_get item "deviceConfig" in
  let* deviceId := js_get dc' "deviceId" in
  Ok (promise_then (devices_get api deviceId) (device_record componentId)).

(** The second [.then] of [configDevicesWithState]:
    [getState(entry.deviceId).then(state => {entry.state = state.components[componentId]; return entry})].
    [this.api] is read when the callback runs; no other code changes it
    in between in the modelled runs. *)
Definition attach_state (remote : Remote) (componentId entry : jsval)
  : result (promise jsval) :=
  let* api := api_devices remote in
  let* deviceId := js_get entry "deviceId" in
  Ok (promise_then (devices_getState api deviceId) (fun state =>
        let* comps := js_get state "components" in
        let* st := js_get comps (to_key componentId) in
        let* entry' := js_set entry "state" st in
        Ok (Fulfilled entry'))).

Definition device_lookup_with_state (remote : Remote) (item : jsval)
  : result (promise jsval) :=
  let* dc := js_get item "deviceConfig" in
  let* componentId := js_get dc "componentId" in
  let* api := api_devices remote in
  let* dc' := js_get item "deviceConfig" in
  let* deviceId := js_get dc' "deviceId" in
  Ok (promise_then
        (promise_then (devices_get api deviceId) (device_record componentId))
        (attach_state remote componentId)).

(** [configDevices(name)]: [undefined] ([None]) for a falsy entry, else
    [Promise.all(list)]; a throw in the [forEach] callback, or [forEach]
    missing on a non-array entry, throws synchronously. *)
Definition configDevices (remote : Remote) (name : string)
  : result (option (promise (list jsval))) :=
  let* entry := js_get (ctx_config this) name in
  if negb (js_truthy entry) then Ok None else
  match entry with
  | JArr items =>
      let* list := result_map (device_lookup remote) items in
      Ok (Some (promise_all list))
  | _ => Throw TypeError
  end.

(** [configDevicesWithState(name)] *)
Definition configDevicesWithState (remote : Remote) (name : string)
  : result (option (promise (list jsval))) :=
  let* entry := js_get (ctx_config this) name in
  if negb (js_truthy entry) then Ok None else
  match entry with
  | JArr items =>
      let* list := result_map (device_lookup_with_state remote) items in
      Ok (Some (promise_all list))
  | _ => Throw TypeError
  end.

End Accessors.

(** ** The constructor: lifecycle normalisation *)

(** A chain of property reads [v.k1.k2...]. *)
Fixpoint js_path (v : jsval) (ks : list string) : result jsval :=
  match ks with
  | [] => Ok v
  | k :: ks' => let* x := js_get v k in js_path x ks'
  end.

(** The locals and fields one branch of the [switch] assigns; a field a
    branch leaves unset stays [undefined]. *)
Record branch_fields : Type := mkFields {
  bf_authToken : jsval;
  bf_refreshToken : jsval;
  bf_executionId : jsval;
  bf_installedAppId : jsval;
  bf_locationId : jsval;
  bf_config : jsval;
  bf_locale : jsval
}.

(** [(data.client && data.client.language) || data.locale] *)
Definition client_language_or_locale (data : jsval) : result jsval :=
  let* client := js_get data "client" in
  let* l := js_and client (fun _ => js_get client "language") in
  js_or l (fun _ => js_get data "locale").

(** The [installedApp]-shaped branches (EVENT, INSTALL, UPDATE, EXECUTE):
    credentials and ids under [data.<section>]. *)
Definition installed_app_fields (data : jsval) (section : string)
    (with_refresh : bool) (locale : jsval -> result jsval) : result branch_fields :=
  let* authToken := js_path data [section; "authToken"] in
  let* refreshToken :=
    if with_refresh then js_path data [section; "refreshToken"] else Ok JUndef in
  let* executionId := js_get data "executionId" in
  let* installedAppId := js_path data [section; "installedApp"; "installedAppId"] in
  let* locationId := js_path data [section; "installedApp"; "locationId"] in
  let* config := js_path data [section; "installedApp"; "config"] in
  let* loc := locale data in
  Ok (mkFields authToken refreshToken executionId installedAppId locationId config loc).

Definition branch_EVENT (data : jsval) : result branch_fields :=
  installed_app_fields data "eventData" false (fun d => js_get d "locale").

Definition branch_INSTALL (data : jsval) : result branch_fields :=
  installed_app_fields data "installData" true client_language_or_locale.

(** Runs on the payload after [data.client = undefined]. *)
Definition branch_UPDATE (data : jsval) : result branch_fields :=
  installed_app_fields data "updateData" true client_language_or_locale.

Definition branch_CONFIGURATION (data : jsval) : result branch_fields :=
  let* executionId := js_get data "executionId" in
  let* installedAppId := js_path data ["configurationData"; "installedAppId"] in
  let* locationId := js_path data ["configurationData"; "locationId"] in
  let* config := js_path data ["configurationData"; "config"] in
  let* loc := client_language_or_locale data in
  Ok (mkFields JUndef JUndef executionId installedAppId locationId config loc).

Definition branch_UNINSTALL (data : jsval) : result branch_fields :=
  let* executionId := js_get data "executionId" in
  let* installedAppId := js_path data ["uninstallData"; "installedApp"; "installedAppId"] in
  let* locationId := js_path data ["uninstallData"; "installedApp"; "locationId"] in
  Ok (mkFields JUndef JUndef executionId installedAppId locationId JUndef JUndef).

Definition branch_EXECUTE (data : jsval) : result branch_fields :=
  installed_app_fields data "executeData" false
    (fun d => js_path d ["executeData"; "parameters"; "locale"]).

(** [default:] the proactive-API context, read from the payload's root. *)
Definition branch_default (data : jsval) : result branch_fields :=
  let* authToken := js_get data "authToken" in
  let* refreshToken := js_get data "refreshToken" in
  let* installedAppId := js_get data "installedAppId" in
  let* locationId := js_get data "locationId" in
  let* config := js_get data "config" in
  let* loc := js_get data "locale" in
  Ok (mkFields authToken refreshToken (JStr "") installedAppId locationId config loc).

(** [const {messageType, lifecycle} = data; switch (lifecycle || messageType)] *)
Definition discriminator (data : jsval) : result jsval :=
  let* messageType := js_get data "messageType" in
  let* lifecycle := js_get data "lifecycle" in
  js_or lifecycle (fun _ => Ok messageType).

(** The [switch]: the branch's fields, and the payload object as it is
    afterwards (the UPDATE branch first runs [data.client = undefined]). *)
Definition switch_lifecycle (data : jsval) : result branch_fields * jsval :=
  match discriminator data with
  | Throw e => (Throw e, data)
  | Ok d =>
      if js_strict_eq d (JStr "EVENT") then (branch_EVENT data, data)
      else if js_strict_eq d (JStr "INSTALL") then (branch_INSTALL data, data)
      else if js_strict_eq d (JStr "UPDATE") then
        match js_set data "client" JUndef with
        | Ok data' => (branch_UPDATE data', data')
        | Throw e => (Throw e, data)
        end
      else if js_strict_eq d (JStr "CONFIGURATION") then (branch_CONFIGURATION data, data)
      else if js_strict_eq d (JStr "UNINSTALL") then (branch_UNINSTALL data, data)
      else if js_strict_eq d (JStr "EXECUTE") then (branch_EXECUTE data, data)
      else (branch_default data, data)
  end.

(** [new SmartAppContext(app, data, apiMutex)]: the outcome, and the payload
    object as the caller holds it afterwards ([this.event] is that same
    object). The call [i18n.init(this)] (the i18n package) is recorded in
    [ctx_i18n], and its write to [this.locale] is [app_i18n_locale]. *)
Definition SmartAppContext (app : App) (data : jsval) (apiMutex : option mutex)
  : result Ctx * jsval :=
  let (fields, data') := switch_lifecycle data in
  (let* f := fields in
   let localized :=
     (js_truthy (app_localizationEnabled app) && js_truthy (bf_locale f))%bool in
   let headers :=
     if localized then JObj [("accept-language", bf_locale f)] else JUndef in
   let locale := if localized then app_i18n_locale app (bf_locale f) else bf_locale f in
   let api :=
     if js_truthy (bf_authToken f) then
       new_SmartThingsApi (mkApiConfig (bf_authToken f) (bf_refreshToken f)
         (app_clientId app) (app_clientSecret app) (app_log app) (app_apiUrl app)
         (app_refreshUrl app) (bf_locationId f) (bf_installedAppId f)
         (app_contextStore app) apiMutex)
     else empty_api in
   Ok (mkCtx data' app apiMutex api (bf_executionId f) (bf_installedAppId f)
         (bf_locationId f) (bf_config f) locale headers localized),
   data').

(** [c] settled its locale from the locale [r] its branch resolved:
    [i18n.init(this)] runs exactly when localization is enabled and [r] is
    truthy, after the header [accept-language: r] is set, and then
    [this.locale] is the locale i18n chooses; otherwise [this.locale] is
    [r]. *)
Definition localized_as (app : App) (c : Ctx) (r : jsval) : Prop :=
  ctx_i18n c = (js_truthy (app_localizationEnabled app) && js_truthy r)%bool /\
  ctx_headers c = (if ctx_i18n c then JObj [("accept-language", r)] else JUndef) /\
  ctx_locale c = (if ctx_i18n c then app_i18n_locale app r else r).

(** ** Location and tokens *)

Definition with_locationId (this : Ctx) (id : jsval) : Ctx :=
  mkCtx (ctx_event this) (ctx_app this) (ctx_apiMutex this) (ctx_api this)
    (ctx_executionId this) (ctx_installedAppId this) id (ctx_config this)
    (ctx_locale this) (ctx_headers this) (ctx_i18n this).

Definition with_api (this : Ctx) (api : Api) : Ctx :=
  mkCtx (ctx_event this) (ctx_app this) (ctx_apiMutex this) api
    (ctx_executionId this) (ctx_installedAppId this) (ctx_locationId this)
    (ctx_config this) (ctx_locale this) (ctx_headers this) (ctx_i18n this).

(** [setLocationId(id)]. [this.api] is always an object ([{}] or a client),
    so [if (this.api)] always holds and the property is written. *)
Definition setLocationId (this : Ctx) (id : jsval) : Ctx :=
  let this := with_locationId this id in
  with_api this (mkApi (api_instance (ctx_api this)) id).

(** [async retrieveTokens()]: resolves to [this], given here in the state
    the method leaves it in. *)
Definition retrieveTokens (this : Ctx) : promise Ctx :=
  let app := ctx_app this in
  match app_contextStore app with
  | None => Fulfilled this
  | Some store =>
      promise_then (store_get store (ctx_installedAppId this)) (fun data =>
        if js_truthy data then
          let* loc := js_get data "locationId" in
          let this := with_locationId this loc in
          let* authToken := js_get data "authToken" in
          let* refreshToken := js_get data "refreshToken" in
          let mtx := match ctx_apiMutex this with
                     | Some m => Some m
                     | None => Some Mutex_new
                     end in
          Ok (Fulfilled (with_api this (new_SmartThingsApi (mkApiConfig
                authToken refreshToken (app_clientId app) (app_clientSecret app)
                (app_log app) (app_apiUrl app) (app_refreshUrl app)
                (ctx_locationId this) (ctx_installedAppId this)
                (app_contextStore app) mtx))))
        else Ok (Fulfilled this))
  end.

(** [isAuthenticated()]: [this.api && this.api.client && this.api.client.authToken].
    Modelled from the spec: the client's current token ([client.authToken]
    of SmartThingsApi, not part of the sources) is the [authToken] the
    client was constructed with, until a refresh inside the client replaces
    it; the placeholder [{}] has no [client]. *)
Definition isAuthenticated (this : Ctx) : bool :=
  match api_instance (ctx_api this) with
  | Some cfg => js_truthy (ac_authToken cfg)
  | None => false
  end.

(** [async deleteContext()] *)
Definition deleteContext (this : Ctx) : promise unit :=
  match app_contextStore (ctx_app this) with
  | Some store =>
      promise_then (store_delete store (ctx_installedAppId this))
        (fun _ => Ok (Fulfilled tt))
  | None => Fulfilled tt
  end.

(** The client's [locationId] agrees with the context's whenever a client
    exists. *)
Definition locations_synced (c : Ctx) : Prop :=
  forall cfg, api_instance (ctx_api c) = Some cfg ->
              api_locationId (ctx_api c) = ctx_locationId c.

(** ** Facts about the value and promise model *)

Lemma js_get_nonnullish (v : jsval) (k k' : string) (x : jsval) :
  js_get v k = Ok x -> exists y, js_get v k' = Ok y.
Proof.
  destruct v; simpl; try discriminate; eauto.
  intros _. destruct (own_lookup k' props); eauto.
Qed.

Lemma js_strict_eq_true_iff (v : jsval) :
  js_strict_eq v (JStr "true") = true <-> v = JStr "true".
Proof.
  destruct v; simpl; split; intro H; try discriminate.
  - apply String.eqb_eq in H. now subst.
  - inversion H. reflexivity.
Qed.

Lemma own_lookup_set_prop (k : string) (x : jsval) (ps : list (string * jsval)) :
  own_lookup k (set_prop k x ps) = Some x.
Proof.
  induction ps as [| [k' v] ps IH]; simpl.
  - now rewrite String.eqb_refl.
  - destruct (String.eqb k k') eqn:E; simpl.
    + now rewrite E.
    + now rewrite E.
Qed.

Lemma result_map_length {A B} (f : A -> result B) (xs : list A) (ys : list B) :
  result_map f xs = Ok ys -> length ys = length xs.
Proof.
  revert ys. induction xs as [| x xs IH]; simpl; intros ys H.
  - now inversion H.
  - destruct (f x); simpl in H; try discriminate.
    destruct (result_map f xs) eqn:E; simpl in H; try discriminate.
    inversion H; subst. simpl. f_equal. now apply IH.
Qed.

Lemma result_map_In {A B} (f : A -> result B) (xs : list A) (ys : list B) (x : A) :
  result_map f xs = Ok ys -> In x xs -> exists y, f x = Ok y /\ In y ys.
Proof.
  revert ys. induction xs as [| x' xs IH]; simpl; intros ys H Hin; [contradiction |].
  destruct (f x') as [y' | e] eqn:Ef; simpl in H; try discriminate.
  destruct (result_map f xs) as [ys' | e] eqn:E; simpl in H; try discriminate.
  inversion H; subst.
  destruct Hin as [<- | Hin].
  - exists y'. split; [assumption | left; reflexivity].
  - destruct (IH ys' eq_refl Hin) as [y [Hy Hyin]].
    exists y. split; [assumption | right; assumption].
Qed.

Lemma promise_all_length {A} (ps : list (promise A)) (l : list A) :
  promise_all ps = Fulfilled l -> length l = length ps.
Proof.
  revert l. induction ps as [| p ps IH]; simpl; intros l H.
  - now inversion H.
  - destruct p as [a | e]; try discriminate.
    destruct (promise_all ps) eqn:E; try discriminate.
    inversion H; subst. simpl. f_equal. now apply IH.
Qed.

Lemma promise_all_rejected {A} (ps : list (promise A)) (e : js_error) :
  In (Rejected e) ps -> exists e', promise_all ps = Rejected e'.
Proof.
  induction ps as [| p ps IH]; simpl; intros Hin; [contradiction |].
  destruct p as [a | e0].
  - destruct Hin as [H | Hin]; [discriminate |].
    destruct (IH Hin) as [e' He']. rewrite He'. eauto.
  - eauto.
Qed.

(** ** Fixtures *)

(** The i18n module configured with the single locale ['en'] (also its
    default): every requested locale settles on ['en']. *)
Definition i18n_en (requested : jsval) : jsval := JStr "en".

Definition app0 : App :=
  mkApp (JBool true) (JStr "client-id") (JStr "client-secret") JUndef JUndef JUndef None
    i18n_en.

(** The same app without localization. *)
Definition app1 : App :=
  mkApp (JBool false) (JStr "client-id") (JStr "client-secret") JUndef JUndef JUndef None
    i18n_en.

(** A host formatter accepting [undefined] and string locales without an
    underscore, as in ['en'] or ['en-US']. *)
Definition host_fmt (d : js_date) (locale : jsval) (options : list (string * jsval))
  : result time_string :=
  match locale with
  | JUndef => Ok (Locale_time d locale options)
  | JStr l =>
      if existsb (fun c => String.eqb (String c EmptyString) "_") (list_ascii_of_string l)
      then Throw RangeError
      else Ok (Locale_time d locale options)
  | JNull => Throw TypeError
  | _ => Throw RangeError
  end.

Definition string_entry (v : jsval) : jsval :=
  JArr [JObj [("valueType", JStr "STRING"); ("stringConfig", JObj [("value", v)])]].

Definition device_entry (deviceId : string) : jsval :=
  JObj [("valueType", JStr "DEVICE");
        ("deviceConfig", JObj [("deviceId", JStr deviceId); ("componentId", JStr "main")])].

Definition config0 : jsval :=
  JObj [("enabled", string_entry (JStr "true"));
        ("wakeUp", string_entry (JStr "2019-01-01T07:00:00.000Z"));
        ("broken", JArr [JObj [("valueType", JStr "STRING"); ("stringConfig", JObj [])]]);
        ("switches", JArr [device_entry "dev-1"; device_entry "dev-2"])].

(** A proactive-API payload (no lifecycle) with credentials. *)
Definition proactive0 : jsval :=
  JObj [("installedAppId", JStr "ia-1"); ("locationId", JStr "loc-1");
        ("authToken", JStr "token"); ("refreshToken", JStr "refresh");
        ("config", config0); ("locale", JStr "en")].

Definition ctx0 : Ctx :=
  match fst (SmartAppContext app0 proactive0 None) with
  | Ok c => c
  | Throw _ => mkCtx JUndef app0 None empty_api JUndef JUndef JUndef JUndef JUndef JUndef false
  end.

(** Device endpoints where both metadata lookups succeed and the state of
    [dev-2] cannot be read. *)
Definition remote0 : Remote :=
  mkRemote
    (fun id => Fulfilled (JObj [("deviceId", id); ("name", JStr "Switch");
                                ("label", JStr "Switch")]))
    (fun id => if js_strict_eq id (JStr "dev-2") then Rejected (Rejection (JStr "503"))
               else Fulfilled (JObj [("components", JObj [("main", JObj [])])])).

Definition uninstall0 : jsval :=
  JObj [("lifecycle", JStr "UNINSTALL"); ("executionId", JStr "e-1");
        ("uninstallData", JObj [("installedApp",
           JObj [("installedAppId", JStr "ia-1"); ("locationId", JStr "loc-1")])])].

(** ** C1: absent keys and a missing config map *)

(** C1 (amended). When [this.config[name]] is [undefined] (a config map
    without that key), every accessor returns [undefined] ([false] for
    [configBooleanValue]) without throwing; when the context has no config
    map at all, as after UNINSTALL, every accessor throws a TypeError. *)
Theorem config_accessors_absent_key
  (this : Ctx) (fmt : time_formatter) (name : string) (opts : option options_obj) (remote : Remote) :
  (js_get (ctx_config this) name = Ok JUndef ->
     configStringValue this name = Ok JUndef /\
     configBooleanValue this name = Ok false /\
     configNumberValue this name = Ok None /\
     configDateValue this name = Ok None /\
     fst (configTimeString this fmt name opts) = Ok None /\
     configModeIds this name = Ok None /\
     configDevices this remote name = Ok None /\
     configDevicesWithState this remote name = Ok None) /\
  (ctx_config this = JUndef ->
     configStringValue this name = Throw TypeError /\
     configBooleanValue this name = Throw TypeError /\
     configNumberValue this name = Throw TypeError /\
     configDateValue this name = Throw TypeError /\
     fst (configTimeString this fmt name opts) = Throw TypeError /\
     configModeIds this name = Throw TypeError /\
     configDevices this remote name = Throw TypeError /\
     configDevicesWithState this remote name = Throw TypeError).
Proof.
  unfold configTimeString.
  unfold configStringValue, configBooleanValue, configNumberValue,
    configDateValue, configModeIds, configDevices,
    configDevicesWithState.
  split; intro H; rewrite H; simpl; repeat split.
Qed.

Lemma config_accessors_absent_key_witness :
  js_get (ctx_config ctx0) "missing" = Ok JUndef /\
  configStringValue ctx0 "missing" = Ok JUndef /\
  configBooleanValue ctx0 "missing" = Ok false /\
  configNumberValue ctx0 "missing" = Ok None /\
  configDateValue ctx0 "missing" = Ok None /\
  fst (configTimeString ctx0 host_fmt "missing" None) = Ok None /\
  configModeIds ctx0 "missing" = Ok None /\
  configDevices ctx0 remote0 "missing" = Ok None /\
  configDevicesWithState ctx0 remote0 "missing" = Ok None.
Proof.
  split; [reflexivity |].
  exact (proj1 (config_accessors_absent_key ctx0 host_fmt "missing" None remote0) eq_refl).
Defined.

(** C1 fails as stated: a context built from an UNINSTALL payload has no
    config map, and [configStringValue] on it throws instead of returning
    [undefined]. *)
Lemma config_accessors_uninstall_throws :
  exists c, fst (SmartAppContext app0 uninstall0 None) = Ok c /\
            ctx_config c = JUndef /\
            configStringValue c "enabled" = Throw TypeError /\
            configBooleanValue c "enabled" = Throw TypeError.
Proof.
  eexists. split; [reflexivity |]. repeat split.
Qed.

(** ** C7: configBooleanValue *)

(** C7. [configBooleanValue(name)] is [false] when [config[name]] is
    [undefined]; when the key holds entries whose first one has a
    [stringConfig] with value [v], it is [v === "true"]: [true] exactly
    when [v] is the string ["true"]. *)
Theorem configBooleanValue_spec (this : Ctx) (name : string) :
  (js_get (ctx_config this) name = Ok JUndef ->
     configBooleanValue this name = Ok false) /\
  (forall first rest sc v,
     js_get (ctx_config this) name = Ok (JArr (first :: rest)) ->
     js_get first "stringConfig" = Ok sc ->
     js_get sc "value" = Ok v ->
     configBooleanValue this name = Ok (js_strict_eq v (JStr "true")) /\
     (configBooleanValue this name = Ok true <-> v = JStr "true")).
Proof.
  unfold configBooleanValue. split.
  - intro H. rewrite H. reflexivity.
  - intros first rest sc v H Hsc Hv. rewrite H. simpl. rewrite Hsc. simpl.
    rewrite Hv. simpl. split; [reflexivity |].
    rewrite <- js_strict_eq_true_iff. split.
    + intro E. injection E as E. exact E.
    + intro E. rewrite E. reflexivity.
Qed.

Lemma configBooleanValue_spec_witness :
  js_get (ctx_config ctx0) "enabled" =
    Ok (JArr [JObj [("valueType", JStr "STRING");
                    ("stringConfig", JObj [("value", JStr "true")])]]) /\
  configBooleanValue ctx0 "enabled" = Ok true /\
  configBooleanValue ctx0 "missing" = Ok false.
Proof.
  destruct (configBooleanValue_spec ctx0 "enabled") as [_ Hp].
  destruct (configBooleanValue_spec ctx0 "missing") as [Ha _].
  split; [reflexivity |]. split.
  - apply (proj2 (Hp _ [] (JObj [("value", JStr "true")]) (JStr "true")
                   eq_refl eq_refl eq_refl)).
    reflexivity.
  - exact (Ha eq_refl).
Defined.

(** ** C2 and C9: the UPDATE branch *)

Definition install_section : jsval :=
  JObj [("authToken", JStr "token"); ("refreshToken", JStr "refresh");
        ("installedApp", JObj [("installedAppId", JStr "ia-1");
                               ("locationId", JStr "loc-1"); ("config", config0)])].

Definition client_fr : jsval :=
  JObj [("os", JStr "ios"); ("language", JStr "fr")].

Definition update0 : jsval :=
  JObj [("lifecycle", JStr "UPDATE"); ("executionId", JStr "e-2");
        ("locale", JStr "en"); ("client", client_fr); ("updateData", install_section)].

Definition install0 : jsval :=
  JObj [("lifecycle", JStr "INSTALL"); ("executionId", JStr "e-3");
        ("locale", JStr "en"); ("client", client_fr); ("installData", install_section)].

(** C2 (code_bug). For an app without localization, where [this.locale]
    stays the locale the branch resolved, an UPDATE payload whose
    [client.language] is ["fr"] and whose root [locale] is ["en"] yields the
    locale ["en"]: [data.client] is cleared before the locale expression
    reads it. The INSTALL branch, with the same expression, yields ["fr"] on
    the same fields. With localization enabled, the locale handed to i18n
    (the [accept-language] header) is likewise ["en"] for UPDATE and ["fr"]
    for INSTALL. *)
Lemma update_locale_ignores_client_language :
  (exists c, fst (SmartAppContext app1 update0 None) = Ok c /\
             ctx_locale c = JStr "en") /\
  (exists c, fst (SmartAppContext app1 install0 None) = Ok c /\
             ctx_locale c = JStr "fr") /\
  (exists c, fst (SmartAppContext app0 update0 None) = Ok c /\
             ctx_headers c = JObj [("accept-language", JStr "en")]) /\
  (exists c, fst (SmartAppContext app0 install0 None) = Ok c /\
             ctx_headers c = JObj [("accept-language", JStr "fr")]).
Proof.
  split; [| split; [| split]]; eexists; split; reflexivity.
Qed.

(** C9. Constructing a context from an UPDATE payload object writes
    [client = undefined] into the caller's object: the payload the caller
    holds afterwards (the same object as [this.event]) has [client]
    undefined, whether or not the constructor then succeeds. *)
Theorem update_payload_client_cleared
  (app : App) (data : jsval) (apiMutex : option mutex)
  (props : list (string * jsval)) :
  data = JObj props ->
  discriminator data = Ok (JStr "UPDATE") ->
  snd (SmartAppContext app data apiMutex) = JObj (set_prop "client" JUndef props) /\
  js_get (snd (SmartAppContext app data apiMutex)) "client" = Ok JUndef /\
  (forall c, fst (SmartAppContext app data apiMutex) = Ok c ->
             ctx_event c = snd (SmartAppContext app data apiMutex)).
Proof.
  intros Hd Hdisc.
  unfold SmartAppContext, switch_lifecycle. rewrite Hdisc. cbn - [branch_UPDATE].
  rewrite Hd. cbn - [branch_UPDATE set_prop].
  destruct (branch_UPDATE (JObj (set_prop "client" JUndef props))) as [f | e];
    cbn - [set_prop]; repeat split.
  - now rewrite own_lookup_set_prop.
  - intros c Hc. injection Hc as <-. reflexivity.
  - now rewrite own_lookup_set_prop.
  - discriminate.
Qed.

Lemma update_payload_client_cleared_witness :
  discriminator update0 = Ok (JStr "UPDATE") /\
  js_get update0 "client" = Ok client_fr /\
  js_get (snd (SmartAppContext app0 update0 None)) "client" = Ok JUndef.
Proof.
  split; [reflexivity |]. split; [reflexivity |].
  exact (proj1 (proj2 (update_payload_client_cleared app0 update0 None _
                          eq_refl eq_refl))).
Defined.

(** ** C3 and C10: configTimeString *)

(** C3 fails as stated: an entry whose [stringConfig] has no [value] gives
    [new Date(undefined)], an invalid date, and [configTimeString] returns
    the string ["Invalid Date"] rather than [undefined] (a Date object is
    always truthy, so the [!entry] test never sees invalid dates). *)
Lemma configTimeString_invalid_date_formatted :
  configDateValue ctx0 "broken" = Ok (Some (Date_of JUndef)) /\
  date_is_nan_by_ecma (Date_of JUndef) = true /\
  fst (configTimeString ctx0 host_fmt "broken" None) = Ok (Some Invalid_Date).
Proof.
  repeat split.
Qed.

(** C3 (amended). Given the config map, [configTimeString(name, options)]
    is [undefined] exactly when [config[name]] is falsy; otherwise (the first
    entry holding a [stringConfig] with value [v]) it is the outcome of
    [new Date(v).toLocaleTimeString(locale, options)], valid date or not:
    ["Invalid Date"] for a date whose time value is NaN, and otherwise the
    host's formatting, which throws when the locale or the options are
    invalid. [options] is replaced by [{hour: '2-digit', minute: '2-digit'}]
    when it is omitted or an empty plain object, and passed as given
    otherwise. *)
Theorem configTimeString_spec
  (this : Ctx) (fmt : time_formatter) (name : string) (opts : option options_obj)
  (entry : jsval) :
  js_get (ctx_config this) name = Ok entry ->
  (js_truthy entry = false -> fst (configTimeString this fmt name opts) = Ok None) /\
  (forall e0 sc v,
     js_truthy entry = true ->
     js_index0 entry = Ok e0 ->
     js_get e0 "stringConfig" = Ok sc ->
     js_get sc "value" = Ok v ->
     fst (configTimeString this fmt name opts) =
       (let* t := toLocaleTimeString fmt (Date_of v) (ctx_locale this)
                    (match opts with
                     | None | Some (mkOptions [] true) =>
                         [("hour", JStr "2-digit"); ("minute", JStr "2-digit")]
                     | Some o => opt_props o
                     end) in
        Ok (Some t))).
Proof.
  intro H. unfold configTimeString, configDateValue. rewrite H. cbn [result_bind]. split.
  - intro Ht. rewrite Ht. reflexivity.
  - intros e0 sc v Ht H0 Hsc Hv. rewrite Ht. simpl.
    rewrite H0. simpl. rewrite Hsc. simpl. rewrite Hv. simpl.
    destruct opts as [[[| p ps] [|]] |]; reflexivity.
Qed.

(** A context whose locale is the malformed tag ['en_US'] (from an app
    without localization, which keeps the payload's locale). *)
Definition ctx_en_US : Ctx :=
  mkCtx JUndef app1 None empty_api (JStr "e-6") (JStr "ia-1") (JStr "loc-1")
    config0 (JStr "en_US") JUndef false.

Lemma configTimeString_spec_witness :
  js_get (ctx_config ctx0) "wakeUp" = Ok (string_entry (JStr "2019-01-01T07:00:00.000Z")) /\
  fst (configTimeString ctx0 host_fmt "wakeUp" None) =
    Ok (Some (Locale_time (Date_of (JStr "2019-01-01T07:00:00.000Z")) (JStr "en")
                [("hour", JStr "2-digit"); ("minute", JStr "2-digit")])) /\
  fst (configTimeString ctx_en_US host_fmt "wakeUp" None) = Throw RangeError.
Proof.
  split; [reflexivity |]. split.
  - exact (proj2 (configTimeString_spec ctx0 host_fmt "wakeUp" None _ eq_refl) _ _ _
             eq_refl eq_refl eq_refl eq_refl).
  - exact (proj2 (configTimeString_spec ctx_en_US host_fmt "wakeUp" None _ eq_refl) _ _ _
             eq_refl eq_refl eq_refl eq_refl).
Defined.

(** C10. When the named date exists, passing an empty plain object as
    [options] makes [configTimeString] write [hour] and [minute] into that
    caller-owned object. *)
Theorem configTimeString_fills_empty_options (this : Ctx) (fmt : time_formatter) (name : string) (d : js_date) :
  configDateValue this name = Ok (Some d) ->
  snd (configTimeString this fmt name (Some (mkOptions [] true))) =
    mkOptions [("hour", JStr "2-digit"); ("minute", JStr "2-digit")] true.
Proof.
  intro H. unfold configTimeString. rewrite H. reflexivity.
Qed.

Lemma configTimeString_fills_empty_options_witness :
  configDateValue ctx0 "wakeUp" = Ok (Some (Date_of (JStr "2019-01-01T07:00:00.000Z"))) /\
  snd (configTimeString ctx0 host_fmt "wakeUp" (Some (mkOptions [] true))) =
    mkOptions [("hour", JStr "2-digit"); ("minute", JStr "2-digit")] true.
Proof.
  split; [reflexivity |].
  exact (configTimeString_fills_empty_options ctx0 host_fmt "wakeUp" _ eq_refl).
Defined.

(** ** C4: device enrichment is all-or-nothing *)

(** The metadata lookup [api.devices.get(item.deviceConfig.deviceId)]
    issued for [item] rejects. *)
Definition get_rejects (remote : Remote) (item : jsval) : Prop :=
  exists deviceId e,
    js_path item ["deviceConfig"; "deviceId"] = Ok deviceId /\
    devices_get remote deviceId = Rejected e.

(** The metadata lookup for [item] succeeds and the state lookup
    [api.devices.getState(entry.deviceId)] it leads to rejects. *)
Definition getState_rejects (remote : Remote) (item : jsval) : Prop :=
  exists deviceId device sid e,
    js_path item ["deviceConfig"; "deviceId"] = Ok deviceId /\
    devices_get remote deviceId = Fulfilled device /\
    js_get device "deviceId" = Ok sid /\
    devices_getState remote sid = Rejected e.

Lemma device_lookup_rejects (this : Ctx) (remote : Remote) (item : jsval)
    (q : promise jsval) :
  device_lookup this remote item = Ok q -> get_rejects remote item ->
  exists e, q = Rejected e.
Proof.
  intros Hq (deviceId & e & Hp & Hg).
  unfold device_lookup, api_devices in Hq. simpl in Hp.
  destruct (js_get item "deviceConfig") as [dc |] eqn:E1; simpl in Hq, Hp;
    try discriminate.
  destruct (js_get dc "componentId") as [cid |]; simpl in Hq; try discriminate.
  destruct (api_instance (ctx_api this)); simpl in Hq; try discriminate.
  destruct (js_get dc "deviceId") as [id |]; simpl in Hq, Hp; try discriminate.
  injection Hp as Hp. subst. injection Hq as <-. rewrite Hg. simpl. eauto.
Qed.

Lemma device_lookup_with_state_rejects (this : Ctx) (remote : Remote)
    (item : jsval) (q : promise jsval) :
  device_lookup_with_state this remote item = Ok q ->
  get_rejects remote item \/ getState_rejects remote item ->
  exists e, q = Rejected e.
Proof.
  intros Hq Hr.
  unfold device_lookup_with_state in Hq.
  destruct (js_get item "deviceConfig") as [dc |] eqn:E1; simpl in Hq;
    try discriminate.
  destruct (js_get dc "componentId") as [cid |]; simpl in Hq; try discriminate.
  unfold api_devices in Hq.
  destruct (api_instance (ctx_api this)) as [cfg |] eqn:Eapi; simpl in Hq;
    try discriminate.
  destruct (js_get dc "deviceId") as [id |] eqn:Eid; simpl in Hq; try discriminate.
  injection Hq as <-.
  destruct Hr as [(deviceId & e & Hp & Hg) | (deviceId & device & sid & e & Hp & Hg & Hsid & Hs)];
    simpl in Hp; rewrite E1 in Hp; simpl in Hp; rewrite Eid in Hp; injection Hp as <-;
    rewrite Hg; simpl; [eauto |].
  unfold device_record. rewrite Hsid. simpl.
  destruct (js_get_nonnullish device "deviceId" "name" sid Hsid) as [nm Hnm].
  destruct (js_get_nonnullish device "deviceId" "label" sid Hsid) as [lb Hlb].
  rewrite Hnm, Hlb. simpl.
  unfold attach_state, api_devices. rewrite Eapi. simpl.
  rewrite Hs. simpl. eauto.
Qed.

(** C4. For a key holding device-config entries, the promise returned by
    [configDevices] or [configDevicesWithState] is never fulfilled with a
    partial list (a fulfilled list has one element per entry), and it is
    rejected as soon as one metadata lookup issued for an entry rejects,
    or, for [configDevicesWithState], one state lookup rejects after its
    metadata lookup succeeded. *)
Theorem device_enrichment_all_or_nothing
  (this : Ctx) (remote : Remote) (name : string) (items : list jsval) :
  js_get (ctx_config this) name = Ok (JArr items) ->
  (forall p, configDevices this remote name = Ok (Some p) ->
     (forall l, p = Fulfilled l -> length l = length items) /\
     ((exists item, In item items /\ get_rejects remote item) ->
      exists e, p = Rejected e)) /\
  (forall p, configDevicesWithState this remote name = Ok (Some p) ->
     (forall l, p = Fulfilled l -> length l = length items) /\
     ((exists item, In item items /\
                    (get_rejects remote item \/ getState_rejects remote item)) ->
      exists e, p = Rejected e)).
Proof.
  intro H. unfold configDevices, configDevicesWithState. rewrite H. simpl.
  split; intros p Hp.
  - destruct (result_map (device_lookup this remote) items) as [qs |] eqn:Em;
      simpl in Hp; try discriminate.
    injection Hp as <-. split.
    + intros l Hl. rewrite (promise_all_length _ _ Hl).
      exact (result_map_length _ _ _ Em).
    + intros (item & Hin & Hr).
      destruct (result_map_In _ _ _ _ Em Hin) as (q & Hq & Hqin).
      destruct (device_lookup_rejects _ _ _ _ Hq Hr) as [e ->].
      exact (promise_all_rejected _ _ Hqin).
  - destruct (result_map (device_lookup_with_state this remote) items) as [qs |] eqn:Em;
      simpl in Hp; try discriminate.
    injection Hp as <-. split.
    + intros l Hl. rewrite (promise_all_length _ _ Hl).
      exact (result_map_length _ _ _ Em).
    + intros (item & Hin & Hr).
      destruct (result_map_In _ _ _ _ Em Hin) as (q & Hq & Hqin).
      destruct (device_lookup_with_state_rejects _ _ _ _ Hq Hr) as [e ->].
      exact (promise_all_rejected _ _ Hqin).
Qed.

Lemma device_enrichment_all_or_nothing_witness :
  js_get (ctx_config ctx0) "switches" =
    Ok (JArr [device_entry "dev-1"; device_entry "dev-2"]) /\
  getState_rejects remote0 (device_entry "dev-2") /\
  exists e, configDevicesWithState ctx0 remote0 "switches" = Ok (Some (Rejected e)).
Proof.
  assert (Hs : getState_rejects remote0 (device_entry "dev-2")).
  { exists (JStr "dev-2"),
      (JObj [("deviceId", JStr "dev-2"); ("name", JStr "Switch"); ("label", JStr "Switch")]),
      (JStr "dev-2"), (Rejection (JStr "503")).
    repeat split. }
  split; [reflexivity |]. split; [exact Hs |].
  destruct (configDevicesWithState ctx0 remote0 "switches") as [[p |] | e] eqn:E;
    [| vm_compute in E; discriminate E | vm_compute in E; discriminate E].
  destruct (proj2 (device_enrichment_all_or_nothing ctx0 remote0 "switches" _ eq_refl) p E)
    as [_ Hrej].
  destruct Hrej as [e He].
  { exists (device_entry "dev-2"). split; [right; left; reflexivity | right; exact Hs]. }
  exists e. rewrite He. reflexivity.
Defined.

(** ** C5: setLocationId *)

(** C5. After [setLocationId(id)] the context's [locationId] is [id], the
    [locationId] of [this.api] (the client when one exists) equals it, and
    [this.api] is still the same client or placeholder. *)
Theorem setLocationId_syncs_client (this : Ctx) (id : jsval) :
  ctx_locationId (setLocationId this id) = id /\
  api_locationId (ctx_api (setLocationId this id)) =
    ctx_locationId (setLocationId this id) /\
  api_instance (ctx_api (setLocationId this id)) = api_instance (ctx_api this).
Proof.
  repeat split.
Qed.

(** ** C8: retrieveTokens without stored tokens *)

(** C8. With no context store, or when the store's lookup for the
    installed app resolves to a falsy value, [retrieveTokens()] resolves to
    the context itself, unchanged. *)
Theorem retrieveTokens_without_stored_tokens (this : Ctx) :
  (app_contextStore (ctx_app this) = None \/
   exists store v,
     app_contextStore (ctx_app this) = Some store /\
     store_get store (ctx_installedAppId this) = Fulfilled v /\
     js_truthy v = false) ->
  retrieveTokens this = Fulfilled this.
Proof.
  unfold retrieveTokens. intros [H | (store & v & H & Hg & Hv)]; rewrite H;
    [reflexivity |].
  rewrite Hg. simpl. rewrite Hv. reflexivity.
Qed.

Lemma retrieveTokens_without_stored_tokens_witness :
  app_contextStore (ctx_app ctx0) = None /\ retrieveTokens ctx0 = Fulfilled ctx0.
Proof.
  split; [reflexivity |].
  apply retrieveTokens_without_stored_tokens. left. reflexivity.
Defined.

(** ** C6: unrecognised lifecycles *)

Definition lifecycle_names : list string :=
  ["EVENT"; "INSTALL"; "UPDATE"; "CONFIGURATION"; "UNINSTALL"; "EXECUTE"].

(** C6. For a payload object whose [lifecycle || messageType] is none of
    the six lifecycle names, the constructor takes the [default] branch and
    does not throw: the credentials, [installedAppId], [locationId],
    [config] and [locale] are read from the payload's root-level fields
    (the locale read is the context's locale when the app does not enable
    localization, and the [accept-language] locale handed to i18n when it
    does), the [executionId] is [''], and the API client, when one is
    built, carries the root-level tokens. *)
Theorem unknown_lifecycle_reads_root
  (app : App) (props : list (string * jsval)) (apiMutex : option mutex) (d : jsval) :
  discriminator (JObj props) = Ok d ->
  (forall s, In s lifecycle_names -> js_strict_eq d (JStr s) = false) ->
  exists f c,
    switch_lifecycle (JObj props) = (Ok f, JObj props) /\
    fst (SmartAppContext app (JObj props) apiMutex) = Ok c /\
    js_get (JObj props) "authToken" = Ok (bf_authToken f) /\
    js_get (JObj props) "refreshToken" = Ok (bf_refreshToken f) /\
    js_get (JObj props) "installedAppId" = Ok (ctx_installedAppId c) /\
    js_get (JObj props) "locationId" = Ok (ctx_locationId c) /\
    js_get (JObj props) "config" = Ok (ctx_config c) /\
    js_get (JObj props) "locale" = Ok (bf_locale f) /\
    localized_as app c (bf_locale f) /\
    (js_truthy (app_localizationEnabled app) = false ->
     js_get (JObj props) "locale" = Ok (ctx_locale c)) /\
    ctx_executionId c = JStr "" /\
    (forall cfg, api_instance (ctx_api c) = Some cfg ->
       ac_authToken cfg = bf_authToken f /\ ac_refreshToken cfg = bf_refreshToken f) /\
    (js_truthy (bf_authToken f) = true -> exists cfg, api_instance (ctx_api c) = Some cfg).
Proof.
  intros Hd Hn.
  assert (Hsw : switch_lifecycle (JObj props) = (branch_default (JObj props), JObj props)).
  { unfold switch_lifecycle. rewrite Hd.
    rewrite !Hn by (simpl; tauto). reflexivity. }
  set (root k := match own_lookup k props with Some x => x | None => inherited k end).
  set (f := mkFields (root "authToken") (root "refreshToken") (JStr "")
              (root "installedAppId") (root "locationId") (root "config") (root "locale")).
  assert (Hg : forall k, js_get (JObj props) k = Ok (root k)).
  { intro k. unfold root. simpl. destruct (own_lookup k props); reflexivity. }
  assert (Hf : branch_default (JObj props) = Ok f).
  { unfold branch_default. rewrite !Hg. reflexivity. }
  rewrite Hf in Hsw.
  unfold SmartAppContext. rewrite Hsw. cbn [fst result_bind].
  eexists f, _. split; [reflexivity |]. split; [reflexivity |].
  rewrite !Hg. do 6 (split; [reflexivity |]).
  split; [unfold localized_as; split; [reflexivity | split; reflexivity] |].
  split; [intro Hdis; cbn [ctx_locale]; rewrite Hdis; reflexivity |].
  split; [reflexivity |]. split.
  - intros cfg Hc. cbn [ctx_api] in Hc.
    destruct (js_truthy (bf_authToken f)); [| discriminate Hc].
    injection Hc as <-. split; reflexivity.
  - intro Ht. cbn [ctx_api]. rewrite Ht. eexists. reflexivity.
Qed.

Definition ping_props : list (string * jsval) :=
  [("lifecycle", JStr "PING"); ("installedAppId", JStr "ia-1");
        ("locationId", JStr "loc-1"); ("authToken", JStr "token");
        ("refreshToken", JStr "refresh"); ("config", config0); ("locale", JStr "en")].

Definition proactive_ping : jsval := JObj ping_props.

Lemma unknown_lifecycle_reads_root_witness :
  discriminator proactive_ping = Ok (JStr "PING") /\
  exists f c,
    switch_lifecycle proactive_ping = (Ok f, proactive_ping) /\
    fst (SmartAppContext app0 proactive_ping None) = Ok c /\
    ctx_installedAppId c = JStr "ia-1".
Proof.
  split; [reflexivity |].
  destruct (unknown_lifecycle_reads_root app0 ping_props None (JStr "PING") eq_refl)
    as (f & c & Hsw & Hc & _ & _ & Hia & _).
  { intros s Hs. simpl in Hs.
    repeat (destruct Hs as [<- | Hs]; [reflexivity |]). contradiction. }
  exists f, c. split; [exact Hsw |]. split; [exact Hc |].
  simpl in Hia. injection Hia as <-. reflexivity.
Defined.

(** * Further properties of the context *)

(** ** Helpers *)

Lemma js_get_truthy (v : jsval) (k : string) :
  js_truthy v = true -> exists x, js_get v k = Ok x.
Proof.
  destruct v; simpl; try discriminate; eauto.
  intros _. destruct (own_lookup k props); eauto.
Qed.

Lemma js_get_throw (v : jsval) (k : string) (e : js_error) :
  js_get v k = Throw e -> e = TypeError.
Proof.
  destruct v; simpl; try discriminate; try (intro H; injection H as <-; reflexivity).
  destruct (own_lookup k props); discriminate.
Qed.

(** ** Token retrieval and deletion *)

(** On a store hit, [retrieveTokens()] resolves to the context with the
    stored [locationId] and a new client built from the stored tokens, the
    app's settings and context store, the context's [installedAppId] and
    that [locationId]; the client reuses the context's mutex, and creates
    one only when the context has none. Every other field of the context
    is kept. *)
Theorem retrieveTokens_restores_stored_credentials
  (this : Ctx) (store : ContextStore) (data : jsval) :
  app_contextStore (ctx_app this) = Some store ->
  store_get store (ctx_installedAppId this) = Fulfilled data ->
  js_truthy data = true ->
  exists loc tok rtok,
    js_get data "locationId" = Ok loc /\
    js_get data "authToken" = Ok tok /\
    js_get data "refreshToken" = Ok rtok /\
    retrieveTokens this = Fulfilled
      (mkCtx (ctx_event this) (ctx_app this) (ctx_apiMutex this)
         (new_SmartThingsApi (mkApiConfig tok rtok
            (app_clientId (ctx_app this)) (app_clientSecret (ctx_app this))
            (app_log (ctx_app this)) (app_apiUrl (ctx_app this))
            (app_refreshUrl (ctx_app this)) loc (ctx_installedAppId this) (Some store)
            (match ctx_apiMutex this with
             | Some m => Some m
             | None => Some Mutex_new
             end)))
         (ctx_executionId this) (ctx_installedAppId this) loc (ctx_config this)
         (ctx_locale this) (ctx_headers this) (ctx_i18n this)).
Proof.
  intros Hs Hg Ht.
  destruct (js_get_truthy data "locationId" Ht) as [loc Hl].
  destruct (js_get_truthy data "authToken" Ht) as [tok Hto].
  destruct (js_get_truthy data "refreshToken" Ht) as [rtok Hr].
  exists loc, tok, rtok. do 3 (split; [assumption |]).
  unfold retrieveTokens. rewrite Hs, Hg. cbn [promise_then]. rewrite Ht, Hl.
  cbn [result_bind]. rewrite Hto. cbn [result_bind]. rewrite Hr. cbn [result_bind].
  reflexivity.
Qed.

Lemma retrieveTokens_restores_stored_credentials_witness :
  let store := mkContextStore
                 (fun _ => Fulfilled (JObj [("locationId", JStr "loc-2");
                                            ("authToken", JStr "t2");
                                            ("refreshToken", JStr "r2")]))
                 (fun _ => Fulfilled tt) in
  let c := mkCtx JUndef
             (mkApp (JBool false) JUndef JUndef JUndef JUndef JUndef (Some store) i18n_en)
             (Some (Mutex_shared 7)) empty_api JUndef (JStr "ia-1") JUndef JUndef
             JUndef JUndef false in
  exists c' cfg, retrieveTokens c = Fulfilled c' /\
                 api_instance (ctx_api c') = Some cfg /\
                 ac_apiMutex cfg = Some (Mutex_shared 7) /\
                 ctx_locationId c' = JStr "loc-2".
Proof.
  intros store c.
  destruct (retrieveTokens_restores_stored_credentials c store
              (JObj [("locationId", JStr "loc-2"); ("authToken", JStr "t2");
                     ("refreshToken", JStr "r2")]) eq_refl eq_refl eq_refl)
    as (loc & tok & rtok & Hl & _ & _ & Hr).
  cbn in Hl. injection Hl as <-.
  eexists _, _. split; [exact Hr |]. split; [reflexivity |]. split; reflexivity.
Defined.

(** [retrieveTokens()] rejects exactly when a context store is configured
    and its lookup rejects, with that reason: reading the stored record
    never fails. [deleteContext()] resolves when no store is configured and
    otherwise settles as the store's [delete] does. *)
Theorem store_failures_propagate (this : Ctx) (e : js_error) :
  (retrieveTokens this = Rejected e <->
   exists store, app_contextStore (ctx_app this) = Some store /\
                 store_get store (ctx_installedAppId this) = Rejected e) /\
  (deleteContext this = Rejected e <->
   exists store, app_contextStore (ctx_app this) = Some store /\
                 store_delete store (ctx_installedAppId this) = Rejected e).
Proof.
  split.
  - unfold retrieveTokens.
    destruct (app_contextStore (ctx_app this)) as [store |]; split.
    + destruct (store_get store (ctx_installedAppId this)) as [data | e'] eqn:Eg;
        cbn [promise_then].
      * destruct (js_truthy data) eqn:Ht; [| discriminate].
        destruct (js_get_truthy data "locationId" Ht) as [loc Hl].
        destruct (js_get_truthy data "authToken" Ht) as [tok Hto].
        destruct (js_get_truthy data "refreshToken" Ht) as [rtok Hr].
        rewrite Hl; cbn [result_bind]; rewrite Hto; cbn [result_bind];
          rewrite Hr; cbn [result_bind]. discriminate.
      * intro H. exists store. split; [reflexivity | injection H as <-; exact Eg].
    + intros (store' & Hs & Hg). injection Hs as <-. rewrite Hg. reflexivity.
    + discriminate.
    + intros (store' & Hs & _). discriminate Hs.
  - unfold deleteContext.
    destruct (app_contextStore (ctx_app this)) as [store |]; split.
    + destruct (store_delete store (ctx_installedAppId this)) as [u | e'] eqn:Ed;
        cbn [promise_then]; [discriminate |].
      intro H. exists store. split; [reflexivity | injection H as <-; exact Ed].
    + intros (store' & Hs & Hg). injection Hs as <-. rewrite Hg. reflexivity.
    + discriminate.
    + intros (store' & Hs & _). discriminate Hs.
Qed.

(** ** The client's locationId *)

(** A constructed context has its client's [locationId] in agreement with
    its own; [setLocationId] establishes the agreement, and [retrieveTokens]
    keeps it. *)
Theorem locations_synced_invariant :
  (forall app data apiMutex c,
     fst (SmartAppContext app data apiMutex) = Ok c -> locations_synced c) /\
  (forall c id, locations_synced (setLocationId c id)) /\
  (forall c c', locations_synced c -> retrieveTokens c = Fulfilled c' ->
                locations_synced c').
Proof.
  split; [| split].
  - intros app data apiMutex c. unfold SmartAppContext.
    destruct (switch_lifecycle data) as [[f | e] data']; cbn; [| discriminate].
    intro H. injection H as <-. unfold locations_synced. cbn.
    destruct (js_truthy (bf_authToken f)); cbn; [reflexivity | discriminate].
  - intros c id cfg _. reflexivity.
  - intros c c' Hsync. unfold retrieveTokens.
    destruct (app_contextStore (ctx_app c)) as [store |];
      [| intro H; injection H as <-; exact Hsync].
    destruct (store_get store (ctx_installedAppId c)) as [data | e];
      cbn [promise_then]; [| discriminate].
    destruct (js_truthy data) eqn:Ht; [| intro H; injection H as <-; exact Hsync].
    destruct (js_get_truthy data "locationId" Ht) as [loc Hl].
    destruct (js_get_truthy data "authToken" Ht) as [tok Hto].
    destruct (js_get_truthy data "refreshToken" Ht) as [rtok Hr].
    rewrite Hl; cbn [result_bind]; rewrite Hto; cbn [result_bind];
      rewrite Hr; cbn [result_bind].
    intro H. injection H as <-. intros cfg _. reflexivity.
Qed.

Lemma locations_synced_invariant_witness :
  locations_synced ctx0 /\ locations_synced (setLocationId ctx0 (JStr "loc-9")).
Proof.
  split.
  - exact (proj1 locations_synced_invariant app0 proactive0 None ctx0 eq_refl).
  - exact (proj1 (proj2 locations_synced_invariant) ctx0 (JStr "loc-9")).
Defined.


(** ** The constructor *)

Ltac crush_binds H :=
  repeat match type of H with
  | context [result_bind ?m _] =>
      let E := fresh "E" in
      destruct m eqn:E; cbn [result_bind] in H; try discriminate H
  end.

Lemma SmartAppContext_fields (app : App) (data : jsval) (m : option mutex) (c : Ctx) :
  fst (SmartAppContext app data m) = Ok c ->
  exists f,
    fst (switch_lifecycle data) = Ok f /\
    ctx_event c = snd (switch_lifecycle data) /\
    ctx_executionId c = bf_executionId f /\
    ctx_installedAppId c = bf_installedAppId f /\
    ctx_locationId c = bf_locationId f /\
    ctx_config c = bf_config f /\
    ctx_locale c = (if ctx_i18n c then app_i18n_locale app (bf_locale f) else bf_locale f) /\
    ctx_i18n c = (js_truthy (app_localizationEnabled app) && js_truthy (bf_locale f))%bool /\
    ctx_headers c = (if ctx_i18n c then JObj [("accept-language", bf_locale f)] else JUndef) /\
    ctx_api c =
      (if js_truthy (bf_authToken f) then
         new_SmartThingsApi (mkApiConfig (bf_authToken f) (bf_refreshToken f)
           (app_clientId app) (app_clientSecret app) (app_log app) (app_apiUrl app)
           (app_refreshUrl app) (bf_locationId f) (bf_installedAppId f)
           (app_contextStore app) m)
       else empty_api).
Proof.
  unfold SmartAppContext.
  destruct (switch_lifecycle data) as [[f | e] data']; cbn; [| discriminate].
  intro H. injection H as <-. exists f. repeat split.
Qed.

Lemma installed_app_fields_ok (data : jsval) (section : string) (r : bool)
    (locale : jsval -> result jsval) (f : branch_fields) :
  installed_app_fields data section r locale = Ok f ->
  locale data = Ok (bf_locale f) /\ (r = false -> bf_refreshToken f = JUndef).
Proof.
  unfold installed_app_fields. intro H. destruct r; crush_binds H;
    injection H as <-; cbn; split; (assumption || discriminate || reflexivity).
Qed.

Lemma switch_on (data : jsval) (name : string) :
  discriminator data = Ok (JStr name) ->
  In name lifecycle_names ->
  name <> "UPDATE" ->
  fst (switch_lifecycle data) =
    (if String.eqb name "EVENT" then branch_EVENT data
     else if String.eqb name "INSTALL" then branch_INSTALL data
     else if String.eqb name "CONFIGURATION" then branch_CONFIGURATION data
     else if String.eqb name "UNINSTALL" then branch_UNINSTALL data
     else branch_EXECUTE data) /\
  snd (switch_lifecycle data) = data.
Proof.
  intros Hd Hin Hu. unfold switch_lifecycle. rewrite Hd.
  simpl in Hin. repeat (destruct Hin as [<- | Hin]; [try (split; reflexivity) |]);
    [congruence | contradiction].
Qed.

(** The constructor builds a client exactly when the branch's [authToken]
    is truthy (so [isAuthenticated()] is that truthiness); the client's
    options are the branch's tokens, the app's client id, secret, log, API
    and refresh URLs and context store, the context's [locationId] and
    [installedAppId], and the mutex passed to the constructor. Without a
    token [this.api] stays the placeholder [{}]. *)
Theorem SmartAppContext_client (app : App) (data : jsval) (m : option mutex) (c : Ctx) :
  fst (SmartAppContext app data m) = Ok c ->
  exists f,
    fst (switch_lifecycle data) = Ok f /\
    isAuthenticated c = js_truthy (bf_authToken f) /\
    (js_truthy (bf_authToken f) = false -> ctx_api c = empty_api) /\
    (forall cfg, api_instance (ctx_api c) = Some cfg ->
       cfg = mkApiConfig (bf_authToken f) (bf_refreshToken f) (app_clientId app)
               (app_clientSecret app) (app_log app) (app_apiUrl app) (app_refreshUrl app)
               (ctx_locationId c) (ctx_installedAppId c) (app_contextStore app) m).
Proof.
  intro H.
  destruct (SmartAppContext_fields _ _ _ _ H)
    as (f & Hf & _ & _ & Hia & Hloc & _ & _ & _ & _ & Hapi).
  exists f. split; [exact Hf |].
  unfold isAuthenticated. rewrite Hapi, Hia, Hloc.
  destruct (js_truthy (bf_authToken f)) eqn:Ht; cbn.
  - split; [exact Ht |]. split; [discriminate |].
    intros cfg Hc. injection Hc as <-. reflexivity.
  - split; [reflexivity |]. split; [reflexivity |]. discriminate.
Qed.

Definition install_props : list (string * jsval) :=
  [("lifecycle", JStr "INSTALL"); ("executionId", JStr "e-3");
   ("locale", JStr "en"); ("client", client_fr); ("installData", install_section)].

Lemma SmartAppContext_client_witness :
  exists c, fst (SmartAppContext app0 (JObj install_props) (Some (Mutex_shared 1))) = Ok c /\
            isAuthenticated c = true.
Proof.
  eexists. split; [reflexivity |].
  destruct (SmartAppContext_client app0 (JObj install_props) (Some (Mutex_shared 1)) _
              eq_refl) as (f & Hf & Ha & _).
  rewrite Ha. injection Hf as <-. reflexivity.
Defined.

(** UNINSTALL and CONFIGURATION contexts carry no credentials: no client is
    built and [isAuthenticated()] is false. An UNINSTALL context also has
    no config map and no locale, hence no localization headers. *)
Theorem uninstall_configuration_unauthenticated
  (app : App) (data : jsval) (m : option mutex) (c : Ctx) :
  (discriminator data = Ok (JStr "UNINSTALL") \/
   discriminator data = Ok (JStr "CONFIGURATION")) ->
  fst (SmartAppContext app data m) = Ok c ->
  ctx_api c = empty_api /\ isAuthenticated c = false /\
  (discriminator data = Ok (JStr "UNINSTALL") ->
   ctx_config c = JUndef /\ ctx_locale c = JUndef /\
   ctx_headers c = JUndef /\ ctx_i18n c = false).
Proof.
  intros Hd H.
  destruct (SmartAppContext_fields _ _ _ _ H)
    as (f & Hf & _ & _ & _ & _ & Hcfg & Hloc & Hi & Hh & Hapi).
  assert (Hu : discriminator data = Ok (JStr "UNINSTALL") ->
               bf_authToken f = JUndef /\ bf_config f = JUndef /\ bf_locale f = JUndef).
  { intro Hu. destruct (switch_on data "UNINSTALL" Hu) as [Hs _];
      [simpl; tauto | discriminate |].
    rewrite Hf in Hs. cbn in Hs. unfold branch_UNINSTALL in Hs.
    symmetry in Hs. crush_binds Hs. injection Hs as <-. repeat split. }
  assert (Htok : bf_authToken f = JUndef).
  { destruct Hd as [Hd | Hd]; [exact (proj1 (Hu Hd)) |].
    destruct (switch_on data "CONFIGURATION" Hd) as [Hs _];
      [simpl; tauto | discriminate |].
    rewrite Hf in Hs. cbn in Hs. unfold branch_CONFIGURATION in Hs.
    symmetry in Hs. crush_binds Hs. injection Hs as <-. reflexivity. }
  rewrite Htok in Hapi. cbn in Hapi.
  split; [exact Hapi |]. split; [unfold isAuthenticated; now rewrite Hapi |].
  intro Hd'. destruct (Hu Hd') as (_ & Hc & Hl).
  rewrite Hcfg, Hloc, Hh, Hi, Hl, Hc. rewrite andb_false_r. repeat split.
Qed.

Lemma uninstall_configuration_unauthenticated_witness :
  discriminator uninstall0 = Ok (JStr "UNINSTALL") /\
  exists c, fst (SmartAppContext app0 uninstall0 None) = Ok c /\
            isAuthenticated c = false.
Proof.
  split; [reflexivity |].
  eexists. split; [reflexivity |].
  exact (proj1 (proj2 (uninstall_configuration_unauthenticated app0 uninstall0 None _
                         (or_introl eq_refl) eq_refl))).
Defined.

Lemma client_language_or_locale_spec (data loc client : jsval) :
  client_language_or_locale data = Ok loc ->
  js_get data "client" = Ok client ->
  (forall lang, js_truthy client = true -> js_get client "language" = Ok lang ->
                js_truthy lang = true -> loc = lang) /\
  ((js_truthy client = false \/
    exists lang, js_get client "language" = Ok lang /\ js_truthy lang = false) ->
   js_get data "locale" = Ok loc).
Proof.
  unfold client_language_or_locale, js_and, js_or. intros H Hc.
  rewrite Hc in H. cbn [result_bind] in H. split.
  - intros lang Ht Hl Htl. rewrite Ht, Hl in H. cbn [result_bind] in H.
    rewrite Htl in H. injection H as <-. reflexivity.
  - intros [Ht | (lang & Hl & Htl)].
    + rewrite Ht in H. cbn [result_bind] in H. rewrite Ht in H. exact H.
    + destruct (js_truthy client) eqn:Ht.
      * rewrite Hl in H. cbn [result_bind] in H. rewrite Htl in H. exact H.
      * cbn [result_bind] in H. rewrite Ht in H. exact H.
Qed.

(** The locale a constructed context settles from is the one its branch
    resolved. *)
Lemma SmartAppContext_localized (app : App) (data : jsval) (m : option mutex) (c : Ctx) :
  fst (SmartAppContext app data m) = Ok c ->
  exists f, fst (switch_lifecycle data) = Ok f /\ localized_as app c (bf_locale f).
Proof.
  intro H.
  destruct (SmartAppContext_fields _ _ _ _ H)
    as (f & Hf & _ & _ & _ & _ & _ & Hloc & Hi & Hh & _).
  exists f. split; [exact Hf |]. split; [exact Hi |]. split; [exact Hh | exact Hloc].
Qed.

(** INSTALL and CONFIGURATION contexts resolve their locale to
    [client.language] when the payload has a truthy [client] whose
    [language] is truthy, and to the payload's root [locale] otherwise;
    the context's locale is the resolved one, or i18n's choice for it when
    the app enables localization. *)
Theorem install_configuration_locale
  (app : App) (data : jsval) (m : option mutex) (c : Ctx) (client : jsval) :
  (discriminator data = Ok (JStr "INSTALL") \/
   discriminator data = Ok (JStr "CONFIGURATION")) ->
  fst (SmartAppContext app data m) = Ok c ->
  js_get data "client" = Ok client ->
  exists r,
    localized_as app c r /\
    (forall lang, js_truthy client = true -> js_get client "language" = Ok lang ->
                  js_truthy lang = true -> r = lang) /\
    ((js_truthy client = false \/
      exists lang, js_get client "language" = Ok lang /\ js_truthy lang = false) ->
     js_get data "locale" = Ok r).
Proof.
  intros Hd H Hc.
  destruct (SmartAppContext_localized _ _ _ _ H) as (f & Hf & Hla).
  exists (bf_locale f). split; [exact Hla |].
  apply (client_language_or_locale_spec data); [| exact Hc].
  destruct Hd as [Hd | Hd].
  - destruct (switch_on data "INSTALL" Hd) as [Hs _]; [simpl; tauto | discriminate |].
    rewrite Hf in Hs. cbn in Hs. unfold branch_INSTALL in Hs. symmetry in Hs.
    exact (proj1 (installed_app_fields_ok _ _ _ _ _ Hs)).
  - destruct (switch_on data "CONFIGURATION" Hd) as [Hs _]; [simpl; tauto | discriminate |].
    rewrite Hf in Hs. cbn in Hs. unfold branch_CONFIGURATION in Hs.
    symmetry in Hs. crush_binds Hs. injection Hs as <-. reflexivity.
Qed.

Lemma install_configuration_locale_witness :
  exists c, fst (SmartAppContext app1 install0 None) = Ok c /\ ctx_locale c = JStr "fr".
Proof.
  eexists. split; [reflexivity |].
  destruct (install_configuration_locale app1 install0 None _ client_fr
              (or_introl eq_refl) eq_refl eq_refl) as (r & (_ & _ & Hl) & Hlang & _).
  rewrite Hl. rewrite (Hlang (JStr "fr") eq_refl eq_refl eq_refl). reflexivity.
Defined.

(** EVENT and EXECUTE contexts never get a refresh token: a client built
    for them has [refreshToken] undefined. Their locale is resolved to the
    payload's root [locale] (EVENT) or [executeData.parameters.locale]
    (EXECUTE). *)
Theorem event_execute_no_refresh_token
  (app : App) (data : jsval) (m : option mutex) (c : Ctx) :
  (discriminator data = Ok (JStr "EVENT") \/
   discriminator data = Ok (JStr "EXECUTE")) ->
  fst (SmartAppContext app data m) = Ok c ->
  (forall cfg, api_instance (ctx_api c) = Some cfg -> ac_refreshToken cfg = JUndef) /\
  (discriminator data = Ok (JStr "EVENT") ->
   exists r, js_get data "locale" = Ok r /\ localized_as app c r) /\
  (discriminator data = Ok (JStr "EXECUTE") ->
   exists r, js_path data ["executeData"; "parameters"; "locale"] = Ok r /\
             localized_as app c r).
Proof.
  intros Hd H.
  destruct (SmartAppContext_fields _ _ _ _ H)
    as (f & Hf & _ & _ & _ & _ & _ & _ & _ & _ & Hapi).
  destruct (SmartAppContext_localized _ _ _ _ H) as (f' & Hf' & Hla).
  rewrite Hf in Hf'. injection Hf' as <-.
  assert (Hev : discriminator data = Ok (JStr "EVENT") ->
                js_get data "locale" = Ok (bf_locale f) /\ bf_refreshToken f = JUndef).
  { intro He. destruct (switch_on data "EVENT" He) as [Hs _]; [simpl; tauto | discriminate |].
    rewrite Hf in Hs. cbn in Hs. unfold branch_EVENT in Hs. symmetry in Hs.
    destruct (installed_app_fields_ok _ _ _ _ _ Hs) as [Hl Hr].
    split; [exact Hl | exact (Hr eq_refl)]. }
  assert (Hex : discriminator data = Ok (JStr "EXECUTE") ->
                js_path data ["executeData"; "parameters"; "locale"] = Ok (bf_locale f) /\
                bf_refreshToken f = JUndef).
  { intro He. destruct (switch_on data "EXECUTE" He) as [Hs _]; [simpl; tauto | discriminate |].
    rewrite Hf in Hs. cbn in Hs. unfold branch_EXECUTE in Hs. symmetry in Hs.
    destruct (installed_app_fields_ok _ _ _ _ _ Hs) as [Hl Hr].
    split; [exact Hl | exact (Hr eq_refl)]. }
  split; [| split; intro He; exists (bf_locale f);
            [exact (conj (proj1 (Hev He)) Hla) | exact (conj (proj1 (Hex He)) Hla)]].
  intros cfg Hc. rewrite Hapi in Hc.
  destruct (js_truthy (bf_authToken f)); [| discriminate Hc].
  injection Hc as <-. cbn [ac_refreshToken].
  destruct Hd as [Hd | Hd]; [exact (proj2 (Hev Hd)) | exact (proj2 (Hex Hd))].
Qed.

Definition event0 : jsval :=
  JObj [("lifecycle", JStr "EVENT"); ("executionId", JStr "e-4"); ("locale", JStr "en");
        ("eventData", JObj [("authToken", JStr "token");
                            ("installedApp", JObj [("installedAppId", JStr "ia-1");
                                                   ("locationId", JStr "loc-1")])])].

Lemma event_execute_no_refresh_token_witness :
  exists c cfg, fst (SmartAppContext app0 event0 None) = Ok c /\
                api_instance (ctx_api c) = Some cfg /\ ac_refreshToken cfg = JUndef.
Proof.
  eexists. eexists. split; [reflexivity |]. split; [reflexivity |].
  apply (proj1 (event_execute_no_refresh_token app0 event0 None _
                  (or_introl eq_refl) eq_refl)).
  reflexivity.
Defined.




(** ** Config accessors: shapes of the entry *)

Lemma result_map_Ok_iff {A B} (f : A -> result B) (xs : list A) (ys : list B) :
  result_map f xs = Ok ys <-> Forall2 (fun x y => f x = Ok y) xs ys.
Proof.
  revert ys. induction xs as [| x xs IH]; intros ys; cbn.
  - split; [intro H; injection H as <-; constructor | intro H; inversion H; reflexivity].
  - split.
    + destruct (f x) as [y | e] eqn:Ef; cbn [result_bind]; [| discriminate].
      destruct (result_map f xs) as [zs | e] eqn:Er; cbn [result_bind]; [| discriminate].
      intro H. injection H as <-. constructor; [exact Ef | apply IH; reflexivity].
    + intro H. inversion H as [| ? y ? zs Hf Hr]; subst.
      rewrite Hf. cbn [result_bind]. apply IH in Hr. rewrite Hr. reflexivity.
Qed.

Lemma promise_all_Fulfilled {A} (ps : list (promise A)) (xs : list A) :
  promise_all ps = Fulfilled xs -> Forall2 (fun p x => p = Fulfilled x) ps xs.
Proof.
  revert xs. induction ps as [| p ps IH]; cbn; intros xs H.
  - injection H as <-. constructor.
  - destruct p as [a | e]; [| discriminate].
    destruct (promise_all ps) as [l | e] eqn:E; [| discriminate].
    injection H as <-. constructor; [reflexivity | apply IH; reflexivity].
Qed.

Lemma Forall2_compose {A B C} (R : A -> B -> Prop) (S : B -> C -> Prop)
  (xs : list A) (ys : list B) (zs : list C) :
  Forall2 R xs ys -> Forall2 S ys zs -> Forall2 (fun x z => exists y, R x y /\ S y z) xs zs.
Proof.
  intros H. revert zs. induction H as [| x y xs ys Hxy H IH]; intros zs H2;
    inversion H2; subst; constructor; eauto.
Qed.

(** The [modeConfig.modeId] of a mode entry. *)
Definition mode_id_of (it id : jsval) : Prop :=
  exists mc, js_get it "modeConfig" = Ok mc /\ js_get mc "modeId" = Ok id.

(** The record [configDevices] builds for a device entry [it]: the
    metadata [api.devices.get] returns for [it.deviceConfig.deviceId],
    tagged with [it.deviceConfig.componentId]. *)
Definition device_record_of (remote : Remote) (it d : jsval) : Prop :=
  exists dc cid did dev deviceId nm label,
    js_get it "deviceConfig" = Ok dc /\ js_get dc "componentId" = Ok cid /\
    js_get dc "deviceId" = Ok did /\ devices_get remote did = Fulfilled dev /\
    js_get dev "deviceId" = Ok deviceId /\ js_get dev "name" = Ok nm /\
    js_get dev "label" = Ok label /\
    d = JObj [("deviceId", deviceId); ("name", nm); ("label", label); ("componentId", cid)].

(** The record [configDevicesWithState] builds: the same, with [state]
    the component's entry of the state [getState] returns for the
    [deviceId] that [get] reported. *)
Definition device_state_record_of (remote : Remote) (it d : jsval) : Prop :=
  exists dc cid did dev deviceId nm label state comps st,
    js_get it "deviceConfig" = Ok dc /\ js_get dc "componentId" = Ok cid /\
    js_get dc "deviceId" = Ok did /\ devices_get remote did = Fulfilled dev /\
    js_get dev "deviceId" = Ok deviceId /\ js_get dev "name" = Ok nm /\
    js_get dev "label" = Ok label /\
    devices_getState remote deviceId = Fulfilled state /\
    js_get state "components" = Ok comps /\ js_get comps (to_key cid) = Ok st /\
    d = JObj [("deviceId", deviceId); ("name", nm); ("label", label);
              ("componentId", cid); ("state", st)].

Lemma device_lookup_fulfilled (this : Ctx) (remote : Remote) (it d : jsval) :
  device_lookup this remote it = Ok (Fulfilled d) -> device_record_of remote it d.
Proof.
  unfold device_lookup, api_devices.
  destruct (js_get it "deviceConfig") as [dc | e] eqn:E1; cbn [result_bind]; [| discriminate].
  destruct (js_get dc "componentId") as [cid | e] eqn:E2; cbn [result_bind]; [| discriminate].
  destruct (api_instance (ctx_api this)); cbn [result_bind]; [| discriminate].
  cbn [result_bind].
  destruct (js_get dc "deviceId") as [did | e] eqn:E3; cbn [result_bind]; [| discriminate].
  intro H. injection H as H.
  destruct (devices_get remote did) as [dev | e] eqn:E4; cbn in H; [| discriminate].
  unfold device_record in H.
  destruct (js_get dev "deviceId") as [deviceId | e] eqn:E5; cbn [result_bind] in H; [| discriminate].
  destruct (js_get dev "name") as [nm | e] eqn:E6; cbn [result_bind] in H; [| discriminate].
  destruct (js_get dev "label") as [label | e] eqn:E7; cbn [result_bind] in H; [| discriminate].
  injection H as <-.
  exists dc, cid, did, dev, deviceId, nm, label. repeat split; assumption.
Qed.

Lemma device_lookup_with_state_fulfilled (this : Ctx) (remote : Remote) (it d : jsval) :
  device_lookup_with_state this remote it = Ok (Fulfilled d) ->
  device_state_record_of remote it d.
Proof.
  unfold device_lookup_with_state.
  destruct (js_get it "deviceConfig") as [dc | e] eqn:E1; cbn [result_bind]; [| discriminate].
  destruct (js_get dc "componentId") as [cid | e] eqn:E2; cbn [result_bind]; [| discriminate].
  unfold api_devices.
  destruct (api_instance (ctx_api this)) eqn:Ea; cbn [result_bind]; [| discriminate].
  cbn [result_bind].
  destruct (js_get dc "deviceId") as [did | e] eqn:E3; cbn [result_bind]; [| discriminate].
  intro H. injection H as H.
  destruct (devices_get remote did) as [dev | e] eqn:E4; cbn in H; [| discriminate].
  unfold device_record in H.
  destruct (js_get dev "deviceId") as [deviceId | e] eqn:E5; cbn [result_bind] in H;
    [| discriminate].
  destruct (js_get dev "name") as [nm | e] eqn:E6; cbn [result_bind] in H; [| discriminate].
  destruct (js_get dev "label") as [label | e] eqn:E7; cbn [result_bind] in H; [| discriminate].
  cbn in H. unfold attach_state, api_devices in H. rewrite Ea in H. cbn in H.
  destruct (devices_getState remote deviceId) as [state | e] eqn:E8; cbn in H; [| discriminate].
  destruct (js_get state "components") as [comps | e] eqn:E9; cbn [result_bind] in H;
    [| discriminate].
  destruct (js_get comps (to_key cid)) as [st | e] eqn:E10; cbn in H; [| discriminate].
  injection H as <-.
  exists dc, cid, did, dev, deviceId, nm, label, state, comps, st.
  repeat split; assumption.
Qed.

Lemma device_lookup_unauthenticated (this : Ctx) (remote : Remote) (it : jsval) :
  api_instance (ctx_api this) = None ->
  device_lookup this remote it = Throw TypeError /\
  device_lookup_with_state this remote it = Throw TypeError.
Proof.
  intro Hn. unfold device_lookup, device_lookup_with_state, api_devices. rewrite Hn.
  destruct (js_get it "deviceConfig") as [dc | e] eqn:E1; cbn [result_bind];
    [| apply js_get_throw in E1; subst; split; reflexivity].
  destruct (js_get dc "componentId") as [cid | e] eqn:E2; cbn [result_bind];
    [| apply js_get_throw in E2; subst; split; reflexivity].
  split; reflexivity.
Qed.


(** An empty array is a truthy entry: the value accessors then throw a
    TypeError (reading [stringConfig] of [entry[0]], which is
    [undefined]), while the list accessors return an empty list, and the
    device ones a promise fulfilled with [[]], without calling the API. *)
Theorem empty_entry_array (this : Ctx) (fmt : time_formatter) (remote : Remote) (name : string)
  (opts : option options_obj) :
  js_get (ctx_config this) name = Ok (JArr []) ->
  configStringValue this name = Throw TypeError /\
  configBooleanValue this name = Throw TypeError /\
  configNumberValue this name = Throw TypeError /\
  configDateValue this name = Throw TypeError /\
  fst (configTimeString this fmt name opts) = Throw TypeError /\
  configModeIds this name = Ok (Some []) /\
  configDevices this remote name = Ok (Some (Fulfilled [])) /\
  configDevicesWithState this remote name = Ok (Some (Fulfilled [])).
Proof.
  intro H.
  unfold configTimeString, configStringValue, configBooleanValue, configNumberValue,
    configDateValue, configModeIds, configDevices, configDevicesWithState.
  rewrite !H. repeat split.
Qed.

(** A truthy entry that is not an array (an object, a string, ...) has no
    [map] or [forEach]: [configModeIds], [configDevices] and
    [configDevicesWithState] throw a TypeError synchronously. *)
Theorem non_array_entry_throws (this : Ctx) (remote : Remote) (name : string) (entry : jsval) :
  js_get (ctx_config this) name = Ok entry ->
  js_truthy entry = true ->
  (forall items, entry <> JArr items) ->
  configModeIds this name = Throw TypeError /\
  configDevices this remote name = Throw TypeError /\
  configDevicesWithState this remote name = Throw TypeError.
Proof.
  intros H Ht Hn. unfold configModeIds, configDevices, configDevicesWithState.
  rewrite H. cbn [result_bind]. rewrite Ht. cbn [negb].
  destruct entry; try (exfalso; eapply Hn; reflexivity); repeat split.
Qed.

(** [configModeIds(name)] returns a list [ids] exactly when the entry is
    an array whose items, in order, carry those [modeConfig.modeId]s. *)
Theorem configModeIds_spec (this : Ctx) (name : string) (ids : list jsval) :
  configModeIds this name = Ok (Some ids) <->
  exists items, js_get (ctx_config this) name = Ok (JArr items) /\
                Forall2 mode_id_of items ids.
Proof.
  unfold configModeIds. split.
  - destruct (js_get (ctx_config this) name) as [entry | e]; cbn [result_bind];
      [| discriminate].
    destruct (negb (js_truthy entry)); [discriminate |].
    destruct entry as [| | | | | items | |]; try discriminate.
    destruct (result_map _ items) as [l | e] eqn:Er; cbn [result_bind]; [| discriminate].
    intro H. injection H as <-. exists items. split; [reflexivity |].
    apply result_map_Ok_iff in Er. revert Er. apply Forall2_impl.
    intros it id. unfold mode_id_of.
    destruct (js_get it "modeConfig") as [mc | e]; cbn [result_bind]; [eauto | discriminate].
  - intros (items & H & Hf). rewrite H. cbn [result_bind js_truthy negb].
    assert (Hm : result_map (fun it => let* mc := js_get it "modeConfig" in
                                       js_get mc "modeId") items = Ok ids).
    { apply result_map_Ok_iff. revert Hf. apply Forall2_impl.
      intros it id (mc & H1 & H2). rewrite H1. exact H2. }
    rewrite Hm. reflexivity.
Qed.

(** When [configDevices(name)] fulfils, its list has one record per
    entry item, in the config's order, each the metadata of that item's
    device tagged with that item's [componentId]. *)
Theorem configDevices_records (this : Ctx) (remote : Remote) (name : string)
  (items ds : list jsval) :
  js_get (ctx_config this) name = Ok (JArr items) ->
  configDevices this remote name = Ok (Some (Fulfilled ds)) ->
  Forall2 (device_record_of remote) items ds.
Proof.
  intros H. unfold configDevices. rewrite H. cbn [result_bind js_truthy negb].
  destruct (result_map (device_lookup this remote) items) as [l | e] eqn:Er;
    cbn [result_bind]; [| discriminate].
  intro Hp. injection Hp as Hp.
  apply result_map_Ok_iff in Er. apply promise_all_Fulfilled in Hp.
  generalize (Forall2_compose _ _ _ _ _ Er Hp). apply Forall2_impl.
  intros it d (p & H1 & H2). subst p. exact (device_lookup_fulfilled this remote it d H1).
Qed.

(** Likewise for [configDevicesWithState], whose records also carry the
    component's [state]. *)
Theorem configDevicesWithState_records (this : Ctx) (remote : Remote) (name : string)
  (items ds : list jsval) :
  js_get (ctx_config this) name = Ok (JArr items) ->
  configDevicesWithState this remote name = Ok (Some (Fulfilled ds)) ->
  Forall2 (device_state_record_of remote) items ds.
Proof.
  intros H. unfold configDevicesWithState. rewrite H. cbn [result_bind js_truthy negb].
  destruct (result_map (device_lookup_with_state this remote) items) as [l | e] eqn:Er;
    cbn [result_bind]; [| discriminate].
  intro Hp. injection Hp as Hp.
  apply result_map_Ok_iff in Er. apply promise_all_Fulfilled in Hp.
  generalize (Forall2_compose _ _ _ _ _ Er Hp). apply Forall2_impl.
  intros it d (p & H1 & H2). subst p.
  exact (device_lookup_with_state_fulfilled this remote it d H1).
Qed.

(** On a context without a client (the placeholder [{}] of a lifecycle
    without an auth token), [configDevices] and [configDevicesWithState]
    on a non-empty device entry throw a TypeError synchronously instead of
    returning a promise. *)
Theorem unauthenticated_devices_throw (this : Ctx) (remote : Remote) (name : string)
  (it : jsval) (rest : list jsval) :
  api_instance (ctx_api this) = None ->
  js_get (ctx_config this) name = Ok (JArr (it :: rest)) ->
  configDevices this remote name = Throw TypeError /\
  configDevicesWithState this remote name = Throw TypeError.
Proof.
  intros Hn H. destruct (device_lookup_unauthenticated this remote it Hn) as [H1 H2].
  unfold configDevices, configDevicesWithState. rewrite H.
  cbn [result_bind js_truthy negb result_map]. rewrite H1, H2. split; reflexivity.
Qed.


(** ** Fixtures for the entry shapes *)

(** A config with an empty entry, an array-like object entry and devices,
    on a context without a client. *)
Definition config1 : jsval :=
  JObj [("none", JArr []);
        ("single", JObj [("0", JObj [("stringConfig", JObj [("value", JStr "on")])])]);
        ("switches", JArr [device_entry "dev-1"])].

Definition ctx1 : Ctx :=
  mkCtx JUndef app0 None empty_api (JStr "e-5") (JStr "ia-1") (JStr "loc-1")
    config1 (JStr "en") (JObj [("accept-language", JStr "en")]) true.

Definition modes0 : jsval :=
  JArr [JObj [("modeConfig", JObj [("modeId", JStr "m-1")])];
        JObj [("modeConfig", JObj [("modeId", JStr "m-2")])]].

(** Device endpoints where every lookup succeeds. *)
Definition remote1 : Remote :=
  mkRemote (devices_get remote0)
    (fun _ => Fulfilled (JObj [("components", JObj [("main", JObj [("switch", JStr "on")])])])).

Lemma empty_entry_array_witness :
  configModeIds ctx1 "none" = Ok (Some []) /\
  configDevices ctx1 remote0 "none" = Ok (Some (Fulfilled [])).
Proof.
  destruct (empty_entry_array ctx1 host_fmt remote0 "none" None eq_refl)
    as (_ & _ & _ & _ & _ & Hm & Hd & _).
  split; [exact Hm | exact Hd].
Defined.

Lemma non_array_entry_throws_witness :
  configStringValue ctx1 "single" = Ok (JStr "on") /\
  configModeIds ctx1 "single" = Throw TypeError.
Proof.
  split; [reflexivity |].
  refine (proj1 (non_array_entry_throws ctx1 remote0 "single" _ eq_refl eq_refl _)).
  intros items H. discriminate H.
Defined.

Lemma configDevices_records_witness :
  exists ds, configDevices ctx0 remote0 "switches" = Ok (Some (Fulfilled ds)) /\
             Forall2 (device_record_of remote0) [device_entry "dev-1"; device_entry "dev-2"] ds.
Proof.
  eexists. split; [reflexivity |].
  apply (configDevices_records ctx0 remote0 "switches"); reflexivity.
Defined.

Lemma configDevicesWithState_records_witness :
  exists ds, configDevicesWithState ctx0 remote1 "switches" = Ok (Some (Fulfilled ds)) /\
             Forall2 (device_state_record_of remote1)
               [device_entry "dev-1"; device_entry "dev-2"] ds.
Proof.
  eexists. split; [reflexivity |].
  apply (configDevicesWithState_records ctx0 remote1 "switches"); reflexivity.
Defined.

Lemma unauthenticated_devices_throw_witness :
  configDevices ctx1 remote1 "switches" = Throw TypeError /\
  configDevicesWithState ctx1 remote1 "switches" = Throw TypeError.
Proof.
  exact (unauthenticated_devices_throw ctx1 remote1 "switches" (device_entry "dev-1") []
           eq_refl eq_refl).
Defined.


(** ** The UPDATE locale *)

Lemma own_lookup_set_prop_other (k k' : string) (x : jsval) (ps : list (string * jsval)) :
  k <> k' -> own_lookup k (set_prop k' x ps) = own_lookup k ps.
Proof.
  intro Hk. induction ps as [| [k'' v] ps IH]; cbn.
  - apply String.eqb_neq in Hk. rewrite Hk. reflexivity.
  - destruct (String.eqb k' k'') eqn:E; cbn.
    + apply String.eqb_eq in E. subst k''. apply String.eqb_neq in Hk. rewrite Hk.
      reflexivity.
    + rewrite IH. reflexivity.
Qed.

(** Since the UPDATE branch clears [client] before reading the locale, an
    UPDATE context always resolves its locale to the payload's root
    [locale], whatever [client.language] the payload carried. *)
Theorem update_locale_is_root_locale
  (app : App) (data : jsval) (m : option mutex) (c : Ctx) (props : list (string * jsval)) :
  data = JObj props ->
  discriminator data = Ok (JStr "UPDATE") ->
  fst (SmartAppContext app data m) = Ok c ->
  exists r, js_get data "locale" = Ok r /\ localized_as app c r.
Proof.
  intros Hd Hdisc H.
  destruct (SmartAppContext_localized _ _ _ _ H) as (f & Hf & Hla).
  exists (bf_locale f). split; [| exact Hla].
  unfold switch_lifecycle in Hf. rewrite Hdisc in Hf.
  rewrite Hd in Hf. cbn - [branch_UPDATE set_prop] in Hf.
  unfold branch_UPDATE in Hf.
  destruct (installed_app_fields_ok _ _ _ _ _ Hf) as [Hl _].
  unfold client_language_or_locale, js_or in Hl. cbn - [set_prop] in Hl.
  rewrite own_lookup_set_prop in Hl. cbn in Hl.
  rewrite own_lookup_set_prop_other in Hl by discriminate.
  rewrite Hd. exact Hl.
Qed.

Lemma update_locale_is_root_locale_witness :
  exists c, fst (SmartAppContext app0 update0 None) = Ok c /\
            exists r, js_get update0 "locale" = Ok r /\ localized_as app0 c r.
Proof.
  eexists. split; [reflexivity |].
  eapply update_locale_is_root_locale; reflexivity.
Defined.
